(** * pistachio: the transfer-matrix engine of [transfer_matrix_method.py]

    A shallow embedding of the numerical core of the script (classes [Light]
    and [Layer], the matrix helpers, [reflectance], [transmittance] and the
    per-wavelength loop of [main]) together with the properties its
    specification states about them.

    Number model.  The script computes with IEEE binary64 floats and pairs
    of them (Python [float]/[complex], numpy [float64]/[complex128]).  Here a
    float is a real number of the Standard Library and a complex number is a
    pair of reals: arithmetic is exact, there is no rounding, overflow, NaN or
    infinity, and the matrix product, which is associative here, is taken
    from left to right.  What the embedding keeps of Python is the control
    flow of the arithmetic: [/] on Python scalars raises [ZeroDivisionError]
    on a zero divisor, [numpy.linalg.inv] raises [LinAlgError] on a singular
    matrix, list indexing raises [IndexError] out of range. *)

From Stdlib Require Import Reals Lra Lia List String Sorted.
Import ListNotations.
Open Scope R_scope.

(** ** Errors and the error monad *)

Inductive exception : Type :=
| ZeroDivisionError
| LinAlgError
| IndexError
| ValueError
| UnboundLocalError.

Inductive result (A : Type) : Type :=
| Ok (a : A)
| Raise (e : exception).
Arguments Ok {A} a.
Arguments Raise {A} e.

Definition bind {A B : Type} (m : result A) (k : A -> result B) : result B :=
  match m with
  | Ok a => k a
  | Raise e => Raise e
  end.

Notation "x <- m ;; k" := (bind m (fun x => k))
  (at level 61, m at next level, right associativity).
Notation "' p <- m ;; k" := (bind m (fun p => k))
  (at level 61, p pattern, m at next level, right associativity).

(** [lst[i]] for a non-negative index. *)
Definition getitem {A : Type} (lst : list A) (i : nat) : result A :=
  match nth_error lst i with
  | Some a => Ok a
  | None => Raise IndexError
  end.

(** ** Complex numbers *)

Record C : Type := mkC { re : R; im : R }.

Declare Scope C_scope.
Delimit Scope C_scope with C.
Bind Scope C_scope with C.

Definition RtoC (x : R) : C := mkC x 0.
Coercion RtoC : R >-> C.

(** The imaginary unit, Python's [1j]. *)
Definition Cj : C := mkC 0 1.

Definition Cadd (a b : C) : C := mkC (re a + re b) (im a + im b).
Definition Copp (a : C) : C := mkC (- re a) (- im a).
Definition Csub (a b : C) : C := mkC (re a - re b) (im a - im b).
Definition Cmul (a b : C) : C :=
  mkC (re a * re b - im a * im b) (re a * im b + im a * re b).
Definition Cconj (a : C) : C := mkC (re a) (- im a).

(** Quotient of two complex numbers with a non-zero divisor. *)
Definition Cquot (a b : C) : C :=
  mkC ((re a * re b + im a * im b) / (re b * re b + im b * im b))
      ((im a * re b - re a * im b) / (re b * re b + im b * im b)).

(** [numpy.exp] on a complex argument. *)
Definition Cexp (a : C) : C :=
  mkC (exp (re a) * cos (im a)) (exp (re a) * sin (im a)).

Notation "a + b" := (Cadd a b) : C_scope.
Notation "a - b" := (Csub a b) : C_scope.
Notation "a * b" := (Cmul a b) : C_scope.
Notation "- a" := (Copp a) : C_scope.

Definition Ceq_dec (a b : C) : {a = b} + {a <> b}.
Proof.
  destruct a as [ar ai], b as [br bi].
  destruct (Req_dec_T ar br) as [-> | Hr].
  - destruct (Req_dec_T ai bi) as [-> | Hi].
    + left; reflexivity.
    + right; intros H; injection H; auto.
  - right; intros H; injection H; auto.
Defined.

(** Python's [a / b] on scalars: a zero divisor raises. *)
Definition py_div (a b : R) : result R :=
  if Req_dec_T b 0 then Raise ZeroDivisionError else Ok (a / b).

Definition py_cdiv (a b : C) : result C :=
  if Ceq_dec b (RtoC 0) then Raise ZeroDivisionError else Ok (Cquot a b).

(** ** 2x2 complex matrices ([numpy.matrix]) *)

Record matrix : Type := mkM { m00 : C; m01 : C; m10 : C; m11 : C }.

Definition eye : matrix := mkM 1 0 0 1.

(** Matrix product, [A * B] / [numpy.dot] on [numpy.matrix] operands. *)
Definition mmul (A B : matrix) : matrix :=
  mkM (m00 A * m00 B + m01 A * m10 B) (m00 A * m01 B + m01 A * m11 B)
      (m10 A * m00 B + m11 A * m10 B) (m10 A * m01 B + m11 A * m11 B).

(** [numpy.linalg.det]. *)
Definition det (A : matrix) : C := (m00 A * m11 A - m01 A * m10 A)%C.

(** [numpy.linalg.inv]: raises [LinAlgError] on a singular matrix. *)
Definition linalg_inv (A : matrix) : result matrix :=
  if Ceq_dec (det A) (RtoC 0) then Raise LinAlgError
  else
    let d := det A in
    Ok (mkM (Cquot (m11 A) d) (Cquot (- m01 A) d)
            (Cquot (- m10 A) d) (Cquot (m00 A) d)).

(** [numpy.linalg.multi_dot]: the product of the matrices of the list, in
    list order; fewer than two matrices is a [ValueError]. *)
Definition multi_dot (array : list matrix) : result matrix :=
  match array with
  | A :: (_ :: _) as rest => Ok (fold_left mmul rest A)
  | _ => Raise ValueError
  end.

(** ** Physical constants ([scipy.constants]) *)

Module sc.

(** Speed of light in vacuum, m/s. *)
Definition c : R := 299792458.

(** Planck constant, J s. *)
Definition h : R := 6.62607015e-34.

(** One electron volt in joules (the elementary charge in coulombs). *)
Definition eV : R := 1.602176634e-19.

End sc.

Definition c : R := sc.c.
Definition h : R := sc.h.

(** ** class Light *)

Record Light : Type := mkLight {
  wavelength_ : R;
  omega : R;
  freq : R;
  k : R;
  energy_J : R;
  energy_ev : R
}.

(** [Light.__init__]: every attribute is a quotient of Python floats, so a
    zero divisor raises; nothing but the new object is written. *)
Definition Light_init (wavelength : R) : result Light :=
  omega <- py_div (2 * PI * c) wavelength ;;
  freq <- py_div c wavelength ;;
  k <- py_div (2 * PI) wavelength ;;
  energy_J <- py_div (h * c) wavelength ;;
  energy_ev <- py_div energy_J sc.eV ;;
  Ok (mkLight wavelength omega freq k energy_J energy_ev).

(** ** class Layer *)

Record Layer : Type := mkLayer {
  material : string;
  thickness : R;
  wavelength : list R;
  index : list R;
  extinct : list R
}.

(** [Layer.wavenumber(n, omega, theta)]; the method does not read [self]. *)
Definition wavenumber (n : C) (omega : R) (theta : R) : C * C :=
  let k_x := (Cquot (n * omega) sc.c * cos theta)%C in
  let k_z := (Cquot (n * omega) sc.c * sin theta)%C in
  (k_x, k_z).

(** [Layer.propagation_matrix(wavenumber)]. *)
Definition propagation_matrix (self : Layer) (wavenumber : C) : matrix :=
  let phi := (wavenumber * thickness self)%C in
  mkM (Cexp (- Cj * phi)) 0 0 (Cexp (Cj * phi)).

(** [Layer.dynamical_matrix(n_, theta)]: the pair [(Ds, Dp)]; the method does
    not read [self]. *)
Definition dynamical_matrix (n_ : C) (theta : R) : matrix * matrix :=
  let m := (n_ * cos theta)%C in
  let Ds := mkM 1 1 m (- m) in
  let Dp := mkM (cos theta) (cos theta) n_ (- n_) in
  (Ds, Dp).

(** ** Module-level functions *)

Definition multilayer_matrix (array : list matrix) : result matrix :=
  multi_dot array.

Definition inverse (M : matrix) : result matrix :=
  linalg_inv M.

(** [reflectance(M_)]: [M_.item(...)] yields Python scalars, so the
    quotient raises on a zero [M11]. *)
Definition reflectance (M_ : matrix) : result (R * C) :=
  let M21 := m10 M_ in
  let M11 := m00 M_ in
  r <- py_cdiv M21 M11 ;;
  let r_sq := (r * Cconj r)%C in
  let r_sq := re r_sq in
  let R := r_sq in
  Ok (R, r).

(** [transmittance(TM, n0, ns, theta_0, theta_s)]. *)
Definition transmittance {A : Type} (TM : matrix) (n0 ns theta_0 theta_s : A)
  : result (C * C) :=
  let M11 := m00 TM in
  t <- py_cdiv 1 M11 ;;
  let t_sq := (t * Cconj t)%C in
  let t_sq := re t_sq in
  let T := (det TM * t_sq)%C in
  Ok (T, t).

(** ** The wavelength sweep of [main]

    Only the numerical part of [main] is embedded: argument parsing, the YAML
    and CSV readers and the plots are left out, and [main] starts from the
    list [layers] that [get_layers_from_yaml] returns. *)

Fixpoint foldM {S A : Type} (body : S -> A -> result S) (xs : list A) (s : S)
  : result S :=
  match xs with
  | [] => Ok s
  | x :: xs' => s' <- body s x ;; foldM body xs' s'
  end.

(** [um = 10**-6]. *)
Definition um : R := / 10 ^ 6.

(** [air.index] and [other.index], the ambient and the substrate of [main]. *)
Definition air_index : R := 1.0.
Definition other_index : R := 1.4.

(** The local variables the loop over [layers] writes: the list [M_list] and
    the loop-carried [D], [P], [Dinv], unbound before the first pass. *)
Record locals : Type := mkLocals {
  M_list : list matrix;
  D_P_Dinv : option (matrix * matrix * matrix)
}.

(** One pass of [for layer in layers:] at sample [i]. *)
Definition layer_body (omega : R) (i : nat) (st : locals) (layer : Layer)
  : result locals :=
  idx <- getitem (index layer) i ;;
  ext <- getitem (extinct layer) i ;;
  let n := (idx + Cj * ext)%C in
  let kx := fst (wavenumber n omega 0) in
  let D := fst (dynamical_matrix n 0) in
  Dinv <- inverse D ;;
  let P := propagation_matrix layer kx in
  Ok (mkLocals (M_list st ++ [D; P; Dinv]) (Some (D, P, Dinv))).

(** What one pass of [for i in range(num_points):] builds: the complete list
    [M_list], and the list the script hands to [multilayer_matrix]. *)
Definition assemble (layers : list Layer) (wavelen : list R) (i : nat)
  : result (list matrix * list matrix) :=
  wl <- getitem wavelen i ;;
  let lmbda := wl * um in
  light <- Light_init lmbda ;;
  let omega := omega light in
  let D0 := fst (dynamical_matrix air_index 0) in
  D0inv <- inverse D0 ;;
  st <- foldM (layer_body omega i) layers (mkLocals [D0inv] None) ;;
  let Ds := fst (dynamical_matrix other_index 0) in
  let M_list := M_list st ++ [Ds] in
  match D_P_Dinv st with
  | Some (D, P, Dinv) => Ok (M_list, [D0inv; D; P; Dinv; Ds])
  | None => Raise UnboundLocalError
  end.

(** [M_i], the transfer matrix of sample [i]. *)
Definition transfer_matrix (layers : list Layer) (wavelen : list R) (i : nat)
  : result matrix :=
  '(_, used) <- assemble layers wavelen i ;;
  multilayer_matrix used.

(** [(trn, ref)], what sample [i] appends to [T] and [R]. *)
Definition sample (layers : list Layer) (wavelen : list R) (i : nat)
  : result (R * R) :=
  M_i <- transfer_matrix layers wavelen i ;;
  '(T, _) <- transmittance M_i air_index other_index 0 0 ;;
  let trn := re T in
  '(ref, _) <- reflectance M_i ;;
  Ok (trn, ref).

(** The sweep: the lists [(T, R)] after the loop. *)
Definition main (layers : list Layer) : result (list R * list R) :=
  au <- getitem layers 0 ;;
  let wavelen := wavelength au in
  let num_points := List.length (wavelength au) in
  foldM (fun '(T, R) i =>
           '(trn, ref) <- sample layers wavelen i ;;
           Ok (T ++ [trn], R ++ [ref]))
        (seq 0 num_points) ([], []).

(** ** Functions of [transfer_matrix_method.py] outside the sweep *)


(** [fresnel(n1, n2, k1x, k2x)], on Python complex scalars: the four
    quotients are taken in the order of the source and the first zero
    divisor raises. *)
Definition fresnel (n1 n2 k1x k2x : C) : result (C * C * C * C) :=
  r12_s <- py_cdiv (k1x - k2x) (k1x + k2x) ;;
  t12_s <- py_cdiv (2 * k1x) (k1x + k2x) ;;
  r12_p <- py_cdiv (n1 * n1 * k2x - n2 * n2 * k1x)
                   (n1 * n1 * k2x + n2 * n2 * k1x) ;;
  t12_p <- py_cdiv (2 * n1 * n1 * k2x) (n1 * n1 * k2x + n2 * n2 * k1x) ;;
  Ok (r12_s, t12_s, r12_p, t12_p).


(** [list.sort()] on a list of floats: the list in ascending order.  On
    real numbers every sorting algorithm returns the same list; this one
    inserts the elements one by one. *)
Fixpoint insort (x : R) (l : list R) : list R :=
  match l with
  | [] => [x]
  | y :: l' => if Rle_dec x y then x :: l else y :: insort x l'
  end.

Definition sort (l : list R) : list R := fold_right insort [] l.

(** The loop [while i < num_points:] of [make_wavelengths], with [count] the
    passes that are left. *)
Fixpoint wavelen_loop (count : nat) (wavelen data_width : R)
    (wavelen_list : list R) : list R :=
  match count with
  | O => wavelen_list
  | S count' =>
      wavelen_loop count' (wavelen + data_width) data_width
                   (wavelen_list ++ [wavelen])
  end.

(** [make_wavelengths(num_points, min_l, max_l)] for an integer
    [num_points]. *)
Definition make_wavelengths (num_points : Z) (min_l max_l : R)
  : result (list R) :=
  let wavelen_list := [] in
  let wavelen := min_l in
  data_width <- py_div (max_l - min_l) (IZR num_points) ;;
  let wavelen_list :=
    wavelen_loop (Z.to_nat num_points) wavelen data_width wavelen_list in
  Ok (sort wavelen_list).

(** ** The CSV readers

    [csv.reader] yields each line of a file as a list of strings.  The
    readers are embedded on these rows; [float], the conversion of a string
    to a number, is a parameter. *)

Section csv.

Variable float : string -> result R.

(** One pass of [for row in reader:] in [get_wave_data]; the [try] around
    the third column catches [IndexError] only. *)
Definition wave_data_row (st : list R * list R * list R) (row : list string)
  : result (list R * list R * list R) :=
  let '(wavelength, y, K) := st in
  c0 <- getitem row 0 ;;
  x0 <- float c0 ;;
  let wavelength := wavelength ++ [x0] in
  c1 <- getitem row 1 ;;
  x1 <- float c1 ;;
  let y := y ++ [x1] in
  match (c2 <- getitem row 2 ;; float c2) with
  | Ok x2 => Ok (wavelength, y, K ++ [x2])
  | Raise IndexError => Ok (wavelength, y, K)
  | Raise e => Raise e
  end.

(** [get_wave_data(data_file)] on the rows of the file: [next(reader, None)]
    drops the first row, if there is one. *)
Definition get_wave_data (rows : list (list string))
  : result (list R * list R * list R) :=
  foldM wave_data_row (tl rows) ([], [], []).

(** The loop of [Layer.get_data_from_csv]: the layer as the loop leaves it,
    and how the loop ends.  A row is converted whole before anything is
    appended. *)
Fixpoint data_from_csv_loop (self : Layer) (rows : list (list string))
  : Layer * result unit :=
  match rows with
  | [] => (self, Ok tt)
  | row :: rows' =>
      match (c0 <- getitem row 0 ;; wl <- float c0 ;;
             c1 <- getitem row 1 ;; n <- float c1 ;;
             c2 <- getitem row 2 ;; K <- float c2 ;;
             Ok (wl, n, K)) with
      | Ok (wl, n, K) =>
          data_from_csv_loop
            (mkLayer (material self) (thickness self)
                     (wavelength self ++ [wl]) (index self ++ [n])
                     (extinct self ++ [K]))
            rows'
      | Raise e => (self, Raise e)
      end
  end.

(** [Layer.get_data_from_csv(path)] on the rows of the file. *)
Definition get_data_from_csv (self : Layer) (rows : list (list string))
  : Layer * result unit :=
  data_from_csv_loop self (tl rows).

End csv.

(** ** Unit conversions of [plots.py] *)

Module plots.

(** [wavenum_to_wavelen(wavenum)]: cm^-1 to micrometres. *)
Definition wavenum_to_wavelen (wavenum : R) : result R :=
  wavelength <- py_div 10000 wavenum ;;
  Ok wavelength.

(** [joules_to_ev(joules)]; [constants.elementary_charge] is the number
    [scipy.constants.eV]. *)
Definition joules_to_ev (joules : R) : result R :=
  ev <- py_div joules sc.eV ;;
  Ok ev.

(** [wavenum_to_joules(wavenum)]: cm^-1 to photon energy. *)
Definition wavenum_to_joules (wavenum : R) : result R :=
  cm_to_m <- py_div 1 100 ;;
  q <- py_div wavenum cm_to_m ;;
  let joules := sc.h * sc.c * q in
  Ok joules.

(** A list comprehension [[f(d) for d in data]]. *)
Fixpoint comprehension {A B : Type} (f : A -> result B) (data : list A)
  : result (list B) :=
  match data with
  | [] => Ok []
  | d :: data' =>
      y <- f d ;; ys <- comprehension f data' ;; Ok (y :: ys)
  end.

(** [set_units(unit_data, set_units)]: the three conversions are computed
    before the unit is looked at; a unit other than ['ev'], ['wn'], ['wl']
    leaves [new_units] unbound. *)
Definition set_units (unit_data : list R) (set_units : string)
  : result (list R) :=
  cm_to_m <- py_div 1 100 ;;
  energy <- comprehension wavenum_to_joules unit_data ;;
  energy_to_ev <- comprehension joules_to_ev energy ;;
  wavenumber_to_wavelength <- comprehension wavenum_to_wavelen unit_data ;;
  if String.eqb set_units "ev" then Ok energy_to_ev
  else if String.eqb set_units "wn" then Ok unit_data
  else if String.eqb set_units "wl" then Ok wavenumber_to_wavelength
  else Raise UnboundLocalError.

End plots.

(** * Definitions used by the proofs *)

(** A layer whose pass of the loop succeeds at sample [i]: it has data at
    [i] and its complex index there is not zero. *)
Definition layer_ok (i : nat) (layer : Layer) : Prop :=
  exists n e,
    nth_error (index layer) i = Some n /\
    nth_error (extinct layer) i = Some e /\
    (RtoC n + Cj * RtoC e)%C <> RtoC 0.

(** ** Closed forms for lossless layers

    A layer without extinction has a real index [n]; [phase] is the phase
    [n * omega / c * thickness] it adds at the wavelength entry [wl] (in
    micrometres). *)

Definition phase (n wl d : R) : R := n * (2 * PI * c / (wl * um)) / sc.c * d.

(** The matrices [D], [P], [Dinv] of a lossless layer of index [n] and phase
    [phi]. *)
Definition lossless_D (n : R) : matrix := mkM 1 1 (RtoC n) (- RtoC n).
Definition lossless_P (phi : R) : matrix :=
  mkM (mkC (cos phi) (- sin phi)) 0 0 (mkC (cos phi) (sin phi)).
Definition lossless_Dinv (n : R) : matrix :=
  mkM (RtoC (1 / 2)) (Cquot (RtoC (1 / 2)) (RtoC n))
      (RtoC (1 / 2)) (Cquot (RtoC (- 1 / 2)) (RtoC n)).

(** The product [D0inv * D * P * Dinv * Ds] for a lossless layer, with
    [cphi], [sphi] the cosine and sine of its phase. *)
Definition lossless_M (n cphi sphi : R) : matrix :=
  mkM (mkC (cphi * (1 + other_index) / 2) (- sphi * (other_index / n + n) / 2))
      (mkC (cphi * (1 - other_index) / 2) (sphi * (other_index / n - n) / 2))
      (mkC (cphi * (1 - other_index) / 2) (- sphi * (other_index / n - n) / 2))
      (mkC (cphi * (1 + other_index) / 2) (sphi * (other_index / n + n) / 2)).

(** ** Closed form for a layer with extinction

    [layer_M x y E F c s] is the product [D0inv * D * P * Dinv * Ds] for a
    layer of complex index [x + i y]; with [a + i b] the complex phase
    [(x + i y) * omega / c * thickness], [E] and [F] stand for [exp b] and
    [exp (- b)], and [c] and [s] for the cosine and the sine of [a].
    [norm2] is the squared modulus of a complex number. *)



(** ** Two layers to evaluate the sweep on

    [film] is a lossless quarter-wave layer (index 2, 125 nm, for the
    wavelength 1 um) and [spacer] a lossless layer of thickness zero; both
    are layers as [get_layers_from_yaml] builds them, the thickness being the
    configured number of nanometres times [10**-9]. *)

Definition film : Layer := mkLayer "film" (125 * / 10 ^ 9) [1] [2] [0].
Definition spacer : Layer := mkLayer "spacer" 0 [1] [3 / 2] [0].



(** The rows of a data file: a header, a row of three columns and a row of
    two. *)
Definition ragged_rows : list (list string) :=
  [["wl"; "n"; "K"]; ["1"; "2"; "3"]; ["4"; "5"]]%string.

(** * Properties *)

(** ** Arithmetic of the number model *)

Lemma C_eq (a b : C) : re a = re b -> im a = im b -> a = b.
Proof. destruct a, b; simpl; intros -> ->; reflexivity. Qed.

Lemma M_eq (A B : matrix) :
  m00 A = m00 B -> m01 A = m01 B -> m10 A = m10 B -> m11 A = m11 B -> A = B.
Proof. destruct A, B; simpl; intros -> -> -> ->; reflexivity. Qed.

Ltac c_ring := apply C_eq; simpl; ring.
Ltac m_ring := apply M_eq; simpl; c_ring.

Lemma RtoC_inj (x y : R) : RtoC x = RtoC y -> x = y.
Proof. intros H; injection H; auto. Qed.

Lemma C_neq_0_norm (a : C) : a <> RtoC 0 -> re a * re a + im a * im a <> 0.
Proof.
  intros Ha Hn. apply Ha, C_eq; simpl; nra.
Qed.

Lemma Cmul_1_r (a : C) : (a * RtoC 1)%C = a.
Proof. apply C_eq; simpl; ring. Qed.

(** [Cquot a b] is the quotient: it is the number whose product with [b]
    is [a]. *)
Lemma Cquot_mul (a b : C) : b <> RtoC 0 -> (Cquot a b * b)%C = a.
Proof.
  intros Hb. pose proof (C_neq_0_norm b Hb) as Hn.
  apply C_eq; simpl; field; exact Hn.
Qed.

Lemma Cquot_unique (a b q : C) : b <> RtoC 0 -> (q * b)%C = a -> q = Cquot a b.
Proof.
  intros Hb <-. pose proof (C_neq_0_norm b Hb) as Hn.
  apply C_eq; simpl; field; exact Hn.
Qed.

Lemma py_div_ok (a b : R) : b <> 0 -> py_div a b = Ok (a / b).
Proof.
  intros Hb. unfold py_div. destruct (Req_dec_T b 0); [contradiction | reflexivity].
Qed.

Lemma py_div_zero (a : R) : py_div a 0 = Raise ZeroDivisionError.
Proof.
  unfold py_div. destruct (Req_dec_T 0 0) as [_ | H]; [reflexivity | now elim H].
Qed.

Lemma py_cdiv_ok (a b : C) : b <> RtoC 0 -> py_cdiv a b = Ok (Cquot a b).
Proof.
  intros Hb. unfold py_cdiv.
  destruct (Ceq_dec b (RtoC 0)); [contradiction | reflexivity].
Qed.

Lemma py_cdiv_zero (a : C) : py_cdiv a (RtoC 0) = Raise ZeroDivisionError.
Proof.
  unfold py_cdiv.
  destruct (Ceq_dec (RtoC 0) (RtoC 0)) as [_ | H]; [reflexivity | now elim H].
Qed.

Lemma eV_neq_0 : sc.eV <> 0.
Proof. unfold sc.eV. lra. Qed.

Lemma c_neq_0 : sc.c <> 0.
Proof. unfold sc.c. lra. Qed.

(** ** The coefficient extractor *)

Lemma reflectance_ok (M : matrix) :
  m00 M <> RtoC 0 ->
  reflectance M =
  Ok (re (Cquot (m10 M) (m00 M) * Cconj (Cquot (m10 M) (m00 M))),
      Cquot (m10 M) (m00 M)).
Proof.
  intros H. unfold reflectance. rewrite (py_cdiv_ok _ _ H). reflexivity.
Qed.

Lemma transmittance_ok {A : Type} (TM : matrix) (n0 ns theta_0 theta_s : A) :
  m00 TM <> RtoC 0 ->
  transmittance TM n0 ns theta_0 theta_s =
  Ok ((det TM * RtoC (re (Cquot 1 (m00 TM) * Cconj (Cquot 1 (m00 TM)))))%C,
      Cquot 1 (m00 TM)).
Proof.
  intros H. unfold transmittance. rewrite (py_cdiv_ok _ _ H). reflexivity.
Qed.

(** C7.  For every matrix [M] whose entry [M[0,0]] is not zero,
    [reflectance(M)] returns the pair [(R, r)] where [r] is the quotient
    [M[1,0] / M[0,0]] (the complex number with [r * M[0,0] = M[1,0]]) and
    [R = Re(r * conj(r))]. *)
Theorem reflectance_spec (M : matrix) :
  m00 M <> RtoC 0 ->
  exists (R_ : R) (r : C),
    reflectance M = Ok (R_, r) /\
    r = Cquot (m10 M) (m00 M) /\
    (r * m00 M)%C = m10 M /\
    R_ = re (r * Cconj r).
Proof.
  intros H.
  exists (re (Cquot (m10 M) (m00 M) * Cconj (Cquot (m10 M) (m00 M)))).
  exists (Cquot (m10 M) (m00 M)).
  split; [apply reflectance_ok; exact H |].
  split; [reflexivity |].
  split; [apply Cquot_mul; exact H | reflexivity].
Qed.

Lemma reflectance_spec_witness :
  m00 (mkM 2 0 1 1) <> RtoC 0 /\
  exists (R_ : R) (r : C),
    reflectance (mkM 2 0 1 1) = Ok (R_, r) /\
    r = Cquot (m10 (mkM 2 0 1 1)) (m00 (mkM 2 0 1 1)) /\
    (r * m00 (mkM 2 0 1 1))%C = m10 (mkM 2 0 1 1) /\
    R_ = re (r * Cconj r).
Proof.
  assert (H : m00 (mkM 2 0 1 1) <> RtoC 0).
  { simpl. intros H. apply RtoC_inj in H. lra. }
  split; [exact H | apply (reflectance_spec (mkM 2 0 1 1) H)].
Defined.

(** C3, as the code has it.  For every matrix [M] whose entry [M[0,0]] is not
    zero, [transmittance(M)] returns the pair [(T, t)] where [t] is the
    quotient [1 / M[0,0]] and [T = det(M) * Re(t * conj(t))]: [T] is a complex
    number, its real part is [Re(det(M)) * Re(t * conj(t))] and its imaginary
    part is [Im(det(M)) * Re(t * conj(t))]. *)
Theorem transmittance_spec (M : matrix) (n0 ns theta_0 theta_s : R) :
  m00 M <> RtoC 0 ->
  exists (T t : C),
    transmittance M n0 ns theta_0 theta_s = Ok (T, t) /\
    t = Cquot 1 (m00 M) /\
    (t * m00 M)%C = RtoC 1 /\
    T = (det M * RtoC (re (t * Cconj t)))%C /\
    re T = re (det M) * re (t * Cconj t) /\
    im T = im (det M) * re (t * Cconj t).
Proof.
  intros H.
  exists (det M * RtoC (re (Cquot 1 (m00 M) * Cconj (Cquot 1 (m00 M)))))%C.
  exists (Cquot 1 (m00 M)).
  split; [apply transmittance_ok; exact H |].
  split; [reflexivity |].
  split; [apply Cquot_mul; exact H |].
  split; [reflexivity |].
  split; simpl; ring.
Qed.

Lemma transmittance_spec_witness :
  m00 (mkM 1 0 0 Cj) <> RtoC 0 /\
  exists (T t : C),
    transmittance (mkM 1 0 0 Cj) 0 0 0 0 = Ok (T, t) /\
    t = Cquot 1 (m00 (mkM 1 0 0 Cj)) /\
    (t * m00 (mkM 1 0 0 Cj))%C = RtoC 1 /\
    T = (det (mkM 1 0 0 Cj) * RtoC (re (t * Cconj t)))%C /\
    re T = re (det (mkM 1 0 0 Cj)) * re (t * Cconj t) /\
    im T = im (det (mkM 1 0 0 Cj)) * re (t * Cconj t).
Proof.
  assert (H : m00 (mkM 1 0 0 Cj) <> RtoC 0).
  { simpl. intros H. apply RtoC_inj in H. lra. }
  split; [exact H | apply (transmittance_spec (mkM 1 0 0 Cj) 0 0 0 0 H)].
Defined.

(** C3 fails as stated: on the matrix [[1, 0], [0, 1j]], whose leading entry
    is 1, the returned [T] is [1j], which is neither a real number nor
    [Re(det(M)) * Re(t * conj(t)) = 0]. *)
Lemma transmittance_T_not_real :
  m00 (mkM 1 0 0 Cj) <> RtoC 0 /\
  exists (T t : C),
    transmittance (mkM 1 0 0 Cj) 0 0 0 0 = Ok (T, t) /\
    T = Cj /\
    im T <> 0 /\
    T <> RtoC (re (det (mkM 1 0 0 Cj)) * re (t * Cconj t)).
Proof.
  assert (H1 : m00 (mkM 1 0 0 Cj) <> RtoC 0).
  { simpl. intros H. apply RtoC_inj in H. lra. }
  split; [exact H1 |].
  eexists. eexists.
  split; [apply (transmittance_ok _ 0 0 0 0 H1) |].
  assert (HT : (det (mkM 1 0 0 Cj) *
                RtoC (re (Cquot 1 (m00 (mkM 1 0 0 Cj)) *
                          Cconj (Cquot 1 (m00 (mkM 1 0 0 Cj))))))%C = Cj).
  { apply C_eq; simpl; field. }
  rewrite HT.
  split; [reflexivity |].
  split; [simpl; lra |].
  intros H. apply (f_equal im) in H. simpl in H. lra.
Qed.

(** C4.  For every matrix [M] whose entry [M[0,0]] is zero, [reflectance(M)]
    and [transmittance(M)] both raise [ZeroDivisionError]; neither returns a
    value. *)
Theorem zero_leading_entry_raises (M : matrix) (n0 ns theta_0 theta_s : R) :
  m00 M = RtoC 0 ->
  reflectance M = Raise ZeroDivisionError /\
  transmittance M n0 ns theta_0 theta_s = Raise ZeroDivisionError.
Proof.
  intros H. unfold reflectance, transmittance. rewrite H.
  rewrite !py_cdiv_zero. split; reflexivity.
Qed.

Lemma zero_leading_entry_raises_witness :
  m00 (mkM 0 1 1 0) = RtoC 0 /\
  reflectance (mkM 0 1 1 0) = Raise ZeroDivisionError /\
  transmittance (mkM 0 1 1 0) 0 0 0 0 = Raise ZeroDivisionError.
Proof.
  split; [reflexivity |].
  apply (zero_leading_entry_raises (mkM 0 1 1 0) 0 0 0 0). reflexivity.
Defined.

(** C6.  The result of [transmittance] does not depend on [n0], [ns],
    [theta_0] and [theta_s]: whatever two argument tuples are passed, of
    whatever types, the two calls on the same matrix return the same. *)
Theorem transmittance_ignores_media (A B : Type) (TM : matrix)
    (n0 ns theta_0 theta_s : A) (n0' ns' theta_0' theta_s' : B) :
  transmittance TM n0 ns theta_0 theta_s =
  transmittance TM n0' ns' theta_0' theta_s'.
Proof. reflexivity. Qed.

(** ** The optical state *)

Lemma Light_init_ok (w : R) :
  w <> 0 ->
  Light_init w =
  Ok (mkLight w (2 * PI * c / w) (c / w) (2 * PI / w) (h * c / w)
              (h * c / w / sc.eV)).
Proof.
  intros Hw. unfold Light_init.
  rewrite !(py_div_ok _ w Hw). simpl.
  rewrite (py_div_ok _ _ eV_neq_0). reflexivity.
Qed.

Lemma Light_init_zero : Light_init 0 = Raise ZeroDivisionError.
Proof. unfold Light_init. rewrite py_div_zero. reflexivity. Qed.

(** C8.  For every positive wavelength the constructed optical state has
    angular frequency [2 pi c / lambda], frequency [c / lambda], vacuum
    wavenumber [2 pi / lambda], photon energy [h c / lambda] in joules and
    that energy divided by the elementary charge in eV. *)
Theorem Light_attributes (wavelength : R) :
  0 < wavelength ->
  exists light : Light,
    Light_init wavelength = Ok light /\
    wavelength_ light = wavelength /\
    omega light = 2 * PI * sc.c / wavelength /\
    freq light = sc.c / wavelength /\
    k light = 2 * PI / wavelength /\
    energy_J light = sc.h * sc.c / wavelength /\
    energy_ev light = energy_J light / sc.eV.
Proof.
  intros Hw. eexists. split.
  - apply Light_init_ok. lra.
  - simpl. repeat split; reflexivity.
Qed.

Lemma Light_attributes_witness :
  0 < um /\
  exists light : Light,
    Light_init um = Ok light /\
    wavelength_ light = um /\
    omega light = 2 * PI * sc.c / um /\
    freq light = sc.c / um /\
    k light = 2 * PI / um /\
    energy_J light = sc.h * sc.c / um /\
    energy_ev light = energy_J light / sc.eV.
Proof.
  assert (H : 0 < um) by (unfold um; lra).
  split; [exact H | apply (Light_attributes um H)].
Defined.

(** C5 fails as stated: a negative wavelength is accepted.  [Light(-1.0)]
    returns an optical state, with a negative angular frequency. *)
Lemma Light_accepts_negative_wavelength :
  -1 <= 0 /\
  exists light : Light, Light_init (-1) = Ok light /\ omega light < 0.
Proof.
  split; [lra |].
  eexists. split.
  - apply Light_init_ok. lra.
  - simpl. unfold c, sc.c. pose proof PI_RGT_0. lra.
Qed.

(** C5, as the code has it.  [Light] does not validate its argument: the
    construction raises exactly when the wavelength is zero, as a
    [ZeroDivisionError] of the first quotient, and it succeeds for every other
    wavelength, negative ones included.  It is a function of its argument
    alone and writes nothing but the new object. *)
Theorem Light_init_fails_iff_zero (wavelength : R) :
  (wavelength = 0 -> Light_init wavelength = Raise ZeroDivisionError) /\
  (wavelength <> 0 ->
   exists light : Light,
     Light_init wavelength = Ok light /\ wavelength_ light = wavelength).
Proof.
  split.
  - intros ->. apply Light_init_zero.
  - intros Hw. eexists. split; [apply Light_init_ok; exact Hw | reflexivity].
Qed.

Lemma Light_init_fails_iff_zero_witness :
  Light_init 0 = Raise ZeroDivisionError /\
  exists light : Light, Light_init (-1) = Ok light /\ wavelength_ light = -1.
Proof.
  split.
  - apply (proj1 (Light_init_fails_iff_zero 0)). reflexivity.
  - apply (proj2 (Light_init_fails_iff_zero (-1))). lra.
Defined.

(** ** The matrices of a layer *)

Lemma cos_theta_0 : RtoC (cos 0) = RtoC 1.
Proof. rewrite cos_0. reflexivity. Qed.

Lemma Ds_normal (n : C) : fst (dynamical_matrix n 0) = mkM 1 1 n (- n).
Proof.
  unfold dynamical_matrix. simpl fst.
  rewrite cos_theta_0, Cmul_1_r. reflexivity.
Qed.

Lemma Dp_normal (n : C) : snd (dynamical_matrix n 0) = mkM 1 1 n (- n).
Proof.
  unfold dynamical_matrix. simpl snd.
  rewrite cos_theta_0. reflexivity.
Qed.

(** C10.  At normal incidence the two matrices of [dynamical_matrix(n, 0)]
    coincide: for every complex index [n] the s-wave and the p-wave matrix
    are both [[1, 1], [n, -n]]. *)
Theorem dynamical_matrix_normal_incidence (n : C) :
  dynamical_matrix n 0 = (mkM 1 1 n (- n), mkM 1 1 n (- n)).
Proof.
  rewrite (surjective_pairing (dynamical_matrix n 0)).
  rewrite Ds_normal, Dp_normal. reflexivity.
Qed.

Lemma Cexp_0 : Cexp (RtoC 0) = RtoC 1.
Proof.
  unfold Cexp. simpl. rewrite exp_0, cos_0, sin_0.
  apply C_eq; simpl; ring.
Qed.

Lemma propagation_matrix_zero_thickness (layer : Layer) (wavenumber : C) :
  thickness layer = 0 -> propagation_matrix layer wavenumber = eye.
Proof.
  intros Hd. unfold propagation_matrix, eye. rewrite Hd.
  replace (- Cj * (wavenumber * RtoC 0))%C with (RtoC 0)
    by (apply C_eq; simpl; ring).
  replace (Cj * (wavenumber * RtoC 0))%C with (RtoC 0)
    by (apply C_eq; simpl; ring).
  rewrite Cexp_0. reflexivity.
Qed.

(** ** Matrix algebra *)

Lemma mmul_assoc (A B E : matrix) : mmul (mmul A B) E = mmul A (mmul B E).
Proof. m_ring. Qed.

Lemma mmul_eye_l (A : matrix) : mmul eye A = A.
Proof. m_ring. Qed.

Lemma mmul_eye_r (A : matrix) : mmul A eye = A.
Proof. m_ring. Qed.

Lemma det_mmul (A B : matrix) : det (mmul A B) = (det A * det B)%C.
Proof. unfold det. c_ring. Qed.

Lemma inverse_ok (A : matrix) :
  det A <> RtoC 0 ->
  inverse A =
  Ok (mkM (Cquot (m11 A) (det A)) (Cquot (- m01 A) (det A))
          (Cquot (- m10 A) (det A)) (Cquot (m00 A) (det A))).
Proof.
  intros H. unfold inverse, linalg_inv.
  destruct (Ceq_dec (det A) (RtoC 0)); [contradiction | reflexivity].
Qed.

Lemma inverse_singular (A : matrix) :
  det A = RtoC 0 -> inverse A = Raise LinAlgError.
Proof.
  intros H. unfold inverse, linalg_inv.
  destruct (Ceq_dec (det A) (RtoC 0)); [reflexivity | contradiction].
Qed.

Lemma inverse_inv (A Ainv : matrix) :
  inverse A = Ok Ainv -> det A <> RtoC 0.
Proof.
  unfold inverse, linalg_inv.
  destruct (Ceq_dec (det A) (RtoC 0)); [discriminate | auto].
Qed.

(** What [inverse] returns is the inverse matrix. *)
Lemma inverse_mmul_r (A Ainv : matrix) :
  inverse A = Ok Ainv -> mmul A Ainv = eye.
Proof.
  intros H. pose proof (inverse_inv _ _ H) as Hd.
  rewrite (inverse_ok _ Hd) in H. injection H as <-.
  pose proof (C_neq_0_norm _ Hd) as Hn. revert Hn.
  destruct A as [[a1 a2] [b1 b2] [c1 c2] [d1 d2]]. simpl. intros Hn.
  apply M_eq; simpl; apply C_eq; simpl; field; exact Hn.
Qed.

Lemma inverse_mmul_l (A Ainv : matrix) :
  inverse A = Ok Ainv -> mmul Ainv A = eye.
Proof.
  intros H. pose proof (inverse_inv _ _ H) as Hd.
  rewrite (inverse_ok _ Hd) in H. injection H as <-.
  pose proof (C_neq_0_norm _ Hd) as Hn. revert Hn.
  destruct A as [[a1 a2] [b1 b2] [c1 c2] [d1 d2]]. simpl. intros Hn.
  apply M_eq; simpl; apply C_eq; simpl; field; exact Hn.
Qed.

(** The dynamical matrix at normal incidence is singular exactly for the
    index zero. *)
Lemma det_Ds (n : C) : det (mkM 1 1 n (- n)) = (RtoC (-2) * n)%C.
Proof. unfold det. c_ring. Qed.

Lemma det_Ds_neq_0 (n : C) : n <> RtoC 0 -> det (mkM 1 1 n (- n)) <> RtoC 0.
Proof.
  intros Hn H. rewrite det_Ds in H. apply Hn.
  apply (f_equal re) in H as Hr. apply (f_equal im) in H as Hi.
  simpl in Hr, Hi. apply C_eq; simpl; lra.
Qed.

Lemma inverse_Ds (n : C) :
  n <> RtoC 0 ->
  inverse (mkM 1 1 n (- n)) =
  Ok (mkM (RtoC (1 / 2)) (Cquot (RtoC (1 / 2)) n)
          (RtoC (1 / 2)) (Cquot (RtoC (- 1 / 2)) n)).
Proof.
  intros Hn. rewrite (inverse_ok _ (det_Ds_neq_0 n Hn)).
  pose proof (C_neq_0_norm _ Hn) as Hn'.
  revert Hn'. destruct n as [a b]. simpl. intros Hn'.
  assert (Hd : (- a - a) * (- a - a) + (- b - b) * (- b - b) <> 0)
    by (intros Hx; apply Hn'; nra).
  f_equal. apply M_eq; simpl; apply C_eq; simpl; field; auto.
Qed.

Lemma foldM_app {S A : Type} (body : S -> A -> result S) (xs ys : list A)
    (s : S) :
  foldM body (xs ++ ys) s = (s' <- foldM body xs s ;; foldM body ys s').
Proof.
  revert s. induction xs as [| x xs IH]; intros s; simpl; [reflexivity |].
  destruct (body s x) as [s' | e]; simpl; [apply IH | reflexivity].
Qed.

(** ** One pass of the loop over the layers *)

Lemma getitem_ok {A : Type} (lst : list A) (i : nat) (a : A) :
  nth_error lst i = Some a -> getitem lst i = Ok a.
Proof. intros H. unfold getitem. rewrite H. reflexivity. Qed.

Lemma layer_body_ok (omega : R) (i : nat) (st : locals) (layer : Layer)
    (idx ext : R) :
  nth_error (index layer) i = Some idx ->
  nth_error (extinct layer) i = Some ext ->
  (idx + Cj * ext)%C <> RtoC 0 ->
  let n := (idx + Cj * ext)%C in
  let D := mkM 1 1 n (- n) in
  let P := propagation_matrix layer (fst (wavenumber n omega 0)) in
  let Dinv := mkM (RtoC (1 / 2)) (Cquot (RtoC (1 / 2)) n)
                  (RtoC (1 / 2)) (Cquot (RtoC (- 1 / 2)) n) in
  layer_body omega i st layer =
  Ok (mkLocals (M_list st ++ [D; P; Dinv]) (Some (D, P, Dinv))).
Proof.
  intros Hi He Hn. simpl. unfold layer_body.
  rewrite (getitem_ok _ _ _ Hi), (getitem_ok _ _ _ He). cbn [bind].
  rewrite Ds_normal, (inverse_Ds _ Hn). reflexivity.
Qed.

(** The loop-carried [D], [P], [Dinv] after a pass depend on the layer of
    that pass only, not on what earlier passes left. *)
Lemma layer_body_last (omega : R) (i : nat) (st st' st2 : locals)
    (layer : Layer) :
  layer_body omega i st layer = Ok st' ->
  exists t, D_P_Dinv st' = Some t /\
    M_list st' = M_list st ++ [fst (fst t); snd (fst t); snd t] /\
    layer_body omega i st2 layer =
    Ok (mkLocals (M_list st2 ++ [fst (fst t); snd (fst t); snd t]) (Some t)).
Proof.
  unfold layer_body.
  destruct (getitem (index layer) i) as [idx | e]; simpl; [| discriminate].
  destruct (getitem (extinct layer) i) as [ext | e]; simpl; [| discriminate].
  destruct (inverse _) as [Dinv | e]; simpl; [| discriminate].
  intros H. injection H as <-. simpl.
  eexists. split; [reflexivity |]. split; reflexivity.
Qed.

Lemma foldM_layer_body_last (omega : R) (i : nat) (pre : list Layer)
    (layer : Layer) (st st' st2 : locals) :
  foldM (layer_body omega i) (pre ++ [layer]) st = Ok st' ->
  exists st2', foldM (layer_body omega i) [layer] st2 = Ok st2' /\
    D_P_Dinv st2' = D_P_Dinv st'.
Proof.
  rewrite foldM_app.
  destruct (foldM (layer_body omega i) pre st) as [st1 | e]; simpl;
    [| discriminate].
  destruct (layer_body omega i st1 layer) as [st1' | e] eqn:Hb; simpl;
    [| discriminate].
  intros H. injection H as <-.
  destruct (layer_body_last _ _ _ _ st2 _ Hb) as (t & Ht & _ & H2).
  rewrite H2. simpl. eexists. split; [reflexivity |].
  simpl. symmetry. exact Ht.
Qed.

(** The matrix the script composes is that of the last layer alone: the
    layers before it can make the sample fail but cannot change [M_i]. *)
Lemma transfer_matrix_last_layer (pre : list Layer) (layer : Layer)
    (wavelen : list R) (i : nat) (M : matrix) :
  transfer_matrix (pre ++ [layer]) wavelen i = Ok M ->
  transfer_matrix [layer] wavelen i = Ok M.
Proof.
  unfold transfer_matrix, assemble.
  destruct (getitem wavelen i) as [wl | e]; simpl; [| discriminate].
  destruct (Light_init (wl * um)) as [light | e]; simpl; [| discriminate].
  destruct (inverse _) as [D0inv | e]; simpl; [| discriminate].
  destruct (foldM _ (pre ++ [layer]) _) as [st' | e] eqn:Hf; [| discriminate].
  destruct (foldM_layer_body_last _ _ _ _ _ _ (mkLocals [D0inv] None) Hf)
    as (st2' & H2 & Hd).
  simpl in H2. unfold bind in H2 |- *.
  destruct (layer_body _ _ _ layer) as [s | e]; [| discriminate].
  injection H2 as ->. rewrite Hd.
  destruct (D_P_Dinv st') as [[[D P] Dinv] |]; [| discriminate].
  auto.
Qed.

(** With a single layer the list handed to [multilayer_matrix] is the
    complete [M_list]. *)
Lemma assemble_single_layer (layer : Layer) (wavelen : list R) (i : nat)
    (M_list used : list matrix) :
  assemble [layer] wavelen i = Ok (M_list, used) -> used = M_list.
Proof.
  unfold assemble.
  destruct (getitem wavelen i) as [wl | e]; simpl; [| discriminate].
  destruct (Light_init (wl * um)) as [light | e]; simpl; [| discriminate].
  destruct (inverse _) as [D0inv | e]; simpl; [| discriminate].
  destruct (layer_body _ _ _ layer) as [s | e] eqn:Hb; simpl; [| discriminate].
  destruct (layer_body_last _ _ _ _ s _ Hb) as (t & Ht & Hm & _).
  rewrite Ht, Hm. destruct t as [[D P] Dinv]. simpl.
  intros H. injection H as <- <-. reflexivity.
Qed.

(** ** Lossless layers

    A layer without extinction has a real index [n]; with [phi] the phase
    [n * omega / c * thickness] its matrices and the transfer matrix of a
    one-layer stack have closed forms. *)

Lemma air_index_eq : air_index = 1.
Proof. unfold air_index. lra. Qed.

Lemma other_index_eq : other_index = 7 / 5.
Proof. unfold other_index. lra. Qed.

Lemma um_neq_0 : um <> 0.
Proof. unfold um. lra. Qed.

Lemma RtoC_neq_0 (x : R) : x <> 0 -> RtoC x <> RtoC 0.
Proof. intros Hx H. apply Hx, RtoC_inj, H. Qed.

Lemma lossless_index (idx : R) : (RtoC idx + Cj * RtoC 0)%C = RtoC idx.
Proof. c_ring. Qed.

Lemma lossless_kx (idx omega : R) :
  fst (wavenumber (RtoC idx) omega 0) = RtoC (idx * omega / sc.c).
Proof.
  unfold wavenumber. cbn [fst]. rewrite cos_theta_0.
  apply C_eq; simpl; field; apply c_neq_0.
Qed.

Lemma propagation_matrix_real (layer : Layer) (kx : R) :
  propagation_matrix layer (RtoC kx) =
  mkM (mkC (cos (kx * thickness layer)) (- sin (kx * thickness layer))) 0 0
      (mkC (cos (kx * thickness layer)) (sin (kx * thickness layer))).
Proof.
  unfold propagation_matrix.
  replace (- Cj * (RtoC kx * RtoC (thickness layer)))%C
    with (mkC 0 (- (kx * thickness layer))) by c_ring.
  replace (Cj * (RtoC kx * RtoC (thickness layer)))%C
    with (mkC 0 (kx * thickness layer)) by c_ring.
  unfold Cexp. simpl. rewrite exp_0, cos_neg, sin_neg.
  f_equal; c_ring.
Qed.

Lemma lossless_layer_body (omega : R) (i : nat) (st : locals) (layer : Layer)
    (n : R) :
  nth_error (index layer) i = Some n ->
  nth_error (extinct layer) i = Some 0 ->
  n <> 0 ->
  let phi := n * omega / sc.c * thickness layer in
  layer_body omega i st layer =
  Ok (mkLocals
        (M_list st ++ [lossless_D n; lossless_P phi; lossless_Dinv n])
        (Some (lossless_D n, lossless_P phi, lossless_Dinv n))).
Proof.
  intros Hi He Hn phi.
  assert (Hn' : (RtoC n + Cj * RtoC 0)%C <> RtoC 0)
    by (rewrite lossless_index; apply RtoC_neq_0, Hn).
  rewrite (layer_body_ok omega i st layer n 0 Hi He Hn').
  rewrite lossless_index, lossless_kx, propagation_matrix_real.
  reflexivity.
Qed.

Lemma inverse_D0 :
  inverse (fst (dynamical_matrix air_index 0)) = Ok (lossless_Dinv air_index).
Proof.
  rewrite Ds_normal. apply inverse_Ds, RtoC_neq_0.
  rewrite air_index_eq. lra.
Qed.

Lemma lossless_product (n phi : R) :
  n <> 0 ->
  fold_left mmul
    [lossless_D n; lossless_P phi; lossless_Dinv n; lossless_D other_index]
    (lossless_Dinv air_index)
  = lossless_M n (cos phi) (sin phi).
Proof.
  intros Hn. unfold lossless_M, lossless_D, lossless_P, lossless_Dinv.
  rewrite air_index_eq, other_index_eq.
  apply M_eq; simpl; apply C_eq; simpl; field; lra.
Qed.

Lemma assemble_lossless_single (layer : Layer) (wavelen : list R) (i : nat)
    (wl n : R) :
  nth_error wavelen i = Some wl -> wl <> 0 ->
  nth_error (index layer) i = Some n ->
  nth_error (extinct layer) i = Some 0 ->
  n <> 0 ->
  let used := [lossless_Dinv air_index; lossless_D n;
               lossless_P (phase n wl (thickness layer)); lossless_Dinv n;
               lossless_D other_index] in
  assemble [layer] wavelen i = Ok (used, used).
Proof.
  intros Hw Hw0 Hi He Hn. unfold assemble.
  rewrite (getitem_ok _ _ _ Hw). cbn [bind].
  rewrite Light_init_ok by (apply Rmult_integral_contrapositive_currified;
                            [exact Hw0 | apply um_neq_0]).
  cbn [bind omega]. rewrite inverse_D0. cbn [bind foldM].
  rewrite (lossless_layer_body _ i _ layer n Hi He Hn).
  cbn [bind M_list D_P_Dinv app]. rewrite Ds_normal. reflexivity.
Qed.

Lemma transfer_matrix_lossless_single (layer : Layer) (wavelen : list R)
    (i : nat) (wl n : R) :
  nth_error wavelen i = Some wl -> wl <> 0 ->
  nth_error (index layer) i = Some n ->
  nth_error (extinct layer) i = Some 0 ->
  n <> 0 ->
  transfer_matrix [layer] wavelen i =
  Ok (lossless_M n (cos (phase n wl (thickness layer)))
                   (sin (phase n wl (thickness layer)))).
Proof.
  intros Hw Hw0 Hi He Hn. unfold transfer_matrix.
  rewrite (assemble_lossless_single layer wavelen i wl n Hw Hw0 Hi He Hn).
  cbn [bind]. unfold multilayer_matrix, multi_dot.
  rewrite (lossless_product n _ Hn). reflexivity.
Qed.

(** The leading entry of the transfer matrix of a lossless layer is never
    zero. *)
Lemma lossless_M_m00 (n cphi sphi : R) :
  n <> 0 -> cphi * cphi + sphi * sphi = 1 ->
  m00 (lossless_M n cphi sphi) <> RtoC 0.
Proof.
  intros Hn Hcs H. unfold lossless_M in H. simpl in H.
  injection H as Hre Him. rewrite other_index_eq in Hre, Him.
  assert (Hc : cphi = 0) by lra.
  assert (Hs : sphi * (7 / 5 / n + n) = 0) by lra.
  assert (Hq : 7 / 5 / n + n <> 0).
  { intros Hx. assert (Hy : (7 / 5 / n + n) * n = 0) by (rewrite Hx; ring).
    field_simplify in Hy; [| exact Hn]. nra. }
  apply Rmult_integral in Hs. destruct Hs as [Hs | Hs]; [| contradiction].
  rewrite Hc, Hs in Hcs. lra.
Qed.

(** Reflectance and transmittance read off the transfer matrix of a lossless
    layer add up to one. *)
Lemma lossless_M_conservation (n cphi sphi : R) (T t r : C) (ref : R) :
  n <> 0 -> cphi * cphi + sphi * sphi = 1 ->
  transmittance (lossless_M n cphi sphi) air_index other_index 0 0 = Ok (T, t) ->
  reflectance (lossless_M n cphi sphi) = Ok (ref, r) ->
  ref + re T = 1.
Proof.
  intros Hn Hcs HT HR.
  pose proof (lossless_M_m00 n cphi sphi Hn Hcs) as H0.
  rewrite (transmittance_ok _ _ _ _ _ H0) in HT.
  rewrite (reflectance_ok _ H0) in HR.
  injection HT as <- _. injection HR as <- _.
  unfold lossless_M. rewrite other_index_eq. simpl.
  field_simplify_eq; [ring | split; [exact Hn |]].
  intros Hx.
  assert (Hsq : Rsqr (cphi * 12 * (5 * n * 2)) +
                Rsqr (sphi * (7 + n * (5 * n)) * 10) = 0)
    by (unfold Rsqr; lra).
  apply Rplus_sqr_eq_0 in Hsq. destruct Hsq as [Hc Hs].
  assert (Hc0 : cphi = 0).
  { destruct (Req_dec cphi 0) as [E | E]; [exact E |].
    exfalso. apply (Rmult_integral_contrapositive_currified cphi n E Hn). lra. }
  assert (Hs0 : sphi = 0).
  { destruct (Req_dec sphi 0) as [E | E]; [exact E |].
    exfalso.
    assert (Hp : 7 + n * (5 * n) <> 0) by nra.
    apply (Rmult_integral_contrapositive_currified _ _ E Hp). lra. }
  rewrite Hc0, Hs0 in Hcs. lra.
Qed.

Lemma getitem_inv {A : Type} (lst : list A) (i : nat) (a : A) :
  getitem lst i = Ok a -> nth_error lst i = Some a.
Proof.
  unfold getitem. destruct (nth_error lst i); [| discriminate].
  intros H. injection H as ->. reflexivity.
Qed.

(** What a successful one-layer sample tells about its input. *)
Lemma transfer_matrix_single_inv (layer : Layer) (wavelen : list R) (i : nat)
    (M : matrix) :
  transfer_matrix [layer] wavelen i = Ok M ->
  exists wl n e,
    nth_error wavelen i = Some wl /\ wl <> 0 /\
    nth_error (index layer) i = Some n /\
    nth_error (extinct layer) i = Some e /\
    (RtoC n + Cj * RtoC e)%C <> RtoC 0.
Proof.
  unfold transfer_matrix, assemble.
  destruct (getitem wavelen i) as [wl | e] eqn:Hw; cbn [bind]; [| discriminate].
  destruct (Req_dec wl 0) as [-> | Hw0].
  { rewrite Rmult_0_l, Light_init_zero. discriminate. }
  destruct (Light_init (wl * um)) as [light | e]; cbn [bind]; [| discriminate].
  destruct (inverse _) as [D0inv | e]; cbn [bind foldM]; [| discriminate].
  unfold layer_body.
  destruct (getitem (index layer) i) as [n | e] eqn:Hi; cbn [bind];
    [| discriminate].
  destruct (getitem (extinct layer) i) as [ex | e] eqn:He; cbn [bind];
    [| discriminate].
  rewrite Ds_normal.
  destruct (Ceq_dec (RtoC n + Cj * RtoC ex)%C (RtoC 0)) as [Hz | Hnz].
  { rewrite inverse_singular; [discriminate |].
    rewrite det_Ds, Hz. c_ring. }
  intros _. exists wl, n, ex.
  repeat split; auto using getitem_inv.
Qed.

Lemma cos_sin_1 (x : R) : cos x * cos x + sin x * sin x = 1.
Proof. pose proof (sin2_cos2 x) as H. unfold Rsqr in H. lra. Qed.

(** Energy conservation in exact arithmetic.  Whenever the sweep produces a
    sample for a stack whose layers have no extinction there, the reflectance
    and the transmittance of the sample add up to one. *)
Lemma lossless_sample_conservation (layers : list Layer) (wavelen : list R)
    (i : nat) (trn ref : R) :
  (forall layer e, In layer layers ->
                   nth_error (extinct layer) i = Some e -> e = 0) ->
  sample layers wavelen i = Ok (trn, ref) ->
  ref + trn = 1.
Proof.
  intros Hloss. unfold sample.
  destruct (transfer_matrix layers wavelen i) as [M | e] eqn:HM; cbn [bind];
    [| discriminate].
  destruct layers as [| l0 ls].
  { exfalso. revert HM. unfold transfer_matrix, assemble.
    destruct (getitem wavelen i); cbn [bind]; [| discriminate].
    destruct (Light_init _); cbn [bind]; [| discriminate].
    destruct (inverse _); cbn [bind foldM D_P_Dinv]; discriminate. }
  destruct (@exists_last _ (l0 :: ls)) as (pre & layer & Heq); [discriminate |].
  rewrite Heq in HM, Hloss.
  apply transfer_matrix_last_layer in HM.
  destruct (transfer_matrix_single_inv _ _ _ _ HM)
    as (wl & n & e & Hw & Hw0 & Hi & He & Hn).
  assert (He0 : e = 0).
  { apply (Hloss layer e); [apply in_or_app; right; left; reflexivity | exact He]. }
  subst e. rewrite lossless_index in Hn.
  assert (Hn0 : n <> 0) by (intros ->; apply Hn; reflexivity).
  rewrite (transfer_matrix_lossless_single _ _ _ wl n Hw Hw0 Hi He Hn0) in HM.
  injection HM as <-.
  destruct (transmittance _ _ _ _ _) as [[T t] | e] eqn:HT; cbn [bind];
    [| discriminate].
  destruct (reflectance _) as [[ref' r] | e] eqn:HR; cbn [bind];
    [| discriminate].
  intros H. injection H as <- <-.
  apply (lossless_M_conservation n _ _ T t r ref' Hn0 (cos_sin_1 _) HT HR).
Qed.

(** ** Stacks of several layers *)

Lemma foldM_layer_body_ok (omega : R) (i : nat) (layers : list Layer)
    (st : locals) :
  Forall (layer_ok i) layers ->
  exists st', foldM (layer_body omega i) layers st = Ok st'.
Proof.
  intros H. revert st.
  induction H as [| layer layers (n & e & Hi & He & Hn) _ IH]; intros st.
  - exists st. reflexivity.
  - cbn [foldM]. rewrite (layer_body_ok omega i st layer n e Hi He Hn).
    cbn [bind]. apply IH.
Qed.

(** When the passes over the earlier layers succeed, the transfer matrix
    of the stack is that of its last layer alone. *)
Lemma transfer_matrix_app (pre : list Layer) (layer : Layer)
    (wavelen : list R) (i : nat) :
  Forall (layer_ok i) pre ->
  transfer_matrix (pre ++ [layer]) wavelen i =
  transfer_matrix [layer] wavelen i.
Proof.
  intros Hok. unfold transfer_matrix, assemble.
  destruct (getitem wavelen i) as [wl | e]; cbn [bind]; [| reflexivity].
  destruct (Light_init (wl * um)) as [light | e]; cbn [bind]; [| reflexivity].
  destruct (inverse _) as [D0inv | e]; cbn [bind]; [| reflexivity].
  rewrite foldM_app.
  destruct (foldM_layer_body_ok (omega light) i pre (mkLocals [D0inv] None) Hok)
    as [st1 H1].
  rewrite H1. cbn [bind foldM]. unfold layer_body.
  destruct (getitem (index layer) i); cbn [bind]; [| reflexivity].
  destruct (getitem (extinct layer) i); cbn [bind]; [| reflexivity].
  destruct (inverse _); cbn [bind]; reflexivity.
Qed.

Lemma sample_app (pre : list Layer) (layer : Layer) (wavelen : list R)
    (i : nat) :
  Forall (layer_ok i) pre ->
  sample (pre ++ [layer]) wavelen i = sample [layer] wavelen i.
Proof.
  intros Hok. unfold sample. rewrite (transfer_matrix_app _ _ _ _ Hok).
  reflexivity.
Qed.

(** The sample of a stack that ends in a lossless layer. *)
Lemma sample_lossless_single (layer : Layer) (wavelen : list R) (i : nat)
    (wl n : R) :
  nth_error wavelen i = Some wl -> wl <> 0 ->
  nth_error (index layer) i = Some n ->
  nth_error (extinct layer) i = Some 0 ->
  n <> 0 ->
  exists trn ref,
    sample [layer] wavelen i = Ok (trn, ref) /\ ref + trn = 1.
Proof.
  intros Hw Hw0 Hi He Hn.
  assert (Hloss : forall l e, In l [layer] ->
                    nth_error (extinct l) i = Some e -> e = 0).
  { intros l e [<- | []] Hl. rewrite He in Hl. injection Hl as <-. reflexivity. }
  destruct (sample [layer] wavelen i) as [[trn ref] | e] eqn:Hs.
  - exists trn, ref. split; [reflexivity |].
    apply (lossless_sample_conservation _ _ _ _ _ Hloss Hs).
  - exfalso. revert Hs. unfold sample.
    rewrite (transfer_matrix_lossless_single _ _ _ wl n Hw Hw0 Hi He Hn).
    cbn [bind].
    pose proof (lossless_M_m00 n _ _ Hn (cos_sin_1 (phase n wl (thickness layer))))
      as H0.
    rewrite (transmittance_ok _ _ _ _ _ H0). cbn [bind].
    rewrite (reflectance_ok _ H0). discriminate.
Qed.

(** Energy conservation of the sweep in exact arithmetic: for a non-empty
    stack of lossless layers with non-zero indices and a non-zero wavelength
    entry, the sample is produced and its [R] and [T] add up to one. *)
Lemma lossless_sample_total (layers : list Layer) (wavelen : list R)
    (i : nat) (wl : R) :
  layers <> [] ->
  nth_error wavelen i = Some wl -> wl <> 0 ->
  Forall (fun layer => exists n, nth_error (index layer) i = Some n /\
                                 nth_error (extinct layer) i = Some 0 /\
                                 n <> 0) layers ->
  exists trn ref,
    sample layers wavelen i = Ok (trn, ref) /\ ref + trn = 1.
Proof.
  intros Hne Hw Hw0 Hall.
  destruct (@exists_last _ layers Hne) as (pre & layer & ->).
  apply Forall_app in Hall. destruct Hall as [Hpre Hlast].
  rewrite sample_app.
  - inversion Hlast as [| ? ? (n & Hi & He & Hn) _]; subst.
    apply (sample_lossless_single layer wavelen i wl n Hw Hw0 Hi He Hn).
  - eapply Forall_impl; [| exact Hpre].
    intros l (n & Hi & He & Hn). exists n, 0.
    repeat split; auto. rewrite lossless_index. apply RtoC_neq_0, Hn.
Qed.

Lemma lossless_P_0 : lossless_P 0 = eye.
Proof.
  unfold lossless_P, eye. rewrite cos_0, sin_0. f_equal; c_ring.
Qed.

Lemma inverse_lossless_D (n : R) :
  n <> 0 -> inverse (lossless_D n) = Ok (lossless_Dinv n).
Proof. intros Hn. apply inverse_Ds, RtoC_neq_0, Hn. Qed.

(** The triple of a zero-thickness layer multiplies to the identity. *)
Lemma fold_triple_eye (X D Dinv : matrix) :
  inverse D = Ok Dinv -> fold_left mmul [D; eye; Dinv] X = X.
Proof.
  intros H. cbn [fold_left].
  rewrite mmul_eye_r, mmul_assoc, (inverse_mmul_r _ _ H), mmul_eye_r.
  reflexivity.
Qed.

(** ** The two-layer stack [film; spacer] *)

Lemma phase_film : phase 2 1 (thickness film) = PI / 2.
Proof. unfold phase, film, um, c, sc.c. simpl. field. Qed.

Lemma phase_spacer (n wl : R) : phase n wl (thickness spacer) = 0.
Proof. unfold phase. simpl. ring. Qed.

Lemma transfer_matrix_film :
  transfer_matrix [film] [1] 0 = Ok (lossless_M 2 0 1).
Proof.
  rewrite (transfer_matrix_lossless_single film [1] 0%nat 1 2);
    try reflexivity; try lra.
  rewrite phase_film, cos_PI2, sin_PI2. reflexivity.
Qed.

Lemma transfer_matrix_spacer :
  transfer_matrix [spacer] [1] 0 = Ok (lossless_M (3 / 2) 1 0).
Proof.
  rewrite (transfer_matrix_lossless_single spacer [1] 0%nat 1 (3 / 2));
    try reflexivity; try lra.
  rewrite phase_spacer, cos_0, sin_0. reflexivity.
Qed.

Lemma film_ok : layer_ok 0 film.
Proof.
  exists 2, 0. repeat split. rewrite lossless_index. apply RtoC_neq_0. lra.
Qed.

Lemma transfer_matrix_film_spacer :
  transfer_matrix [film; spacer] [1] 0 = Ok (lossless_M (3 / 2) 1 0).
Proof.
  rewrite (transfer_matrix_app [film] spacer)
    by (repeat constructor; apply film_ok).
  apply transfer_matrix_spacer.
Qed.

Lemma sample_of_transfer_matrix (layers : list Layer) (wavelen : list R)
    (i : nat) (M : matrix) :
  transfer_matrix layers wavelen i = Ok M ->
  m00 M <> RtoC 0 ->
  sample layers wavelen i =
  Ok (re (det M * RtoC (re (Cquot 1 (m00 M) * Cconj (Cquot 1 (m00 M)))))%C,
      re (Cquot (m10 M) (m00 M) * Cconj (Cquot (m10 M) (m00 M)))).
Proof.
  intros HM H0. unfold sample. rewrite HM. cbn [bind].
  rewrite (transmittance_ok _ _ _ _ _ H0). cbn [bind].
  rewrite (reflectance_ok _ H0). reflexivity.
Qed.

Lemma sample_film : sample [film] [1] 0 = Ok (560 / 729, 169 / 729).
Proof.
  rewrite (sample_of_transfer_matrix _ _ _ _ transfer_matrix_film).
  - unfold lossless_M. rewrite other_index_eq. simpl.
    f_equal. f_equal; field.
  - apply lossless_M_m00; lra.
Qed.

Lemma sample_film_spacer :
  sample [film; spacer] [1] 0 = Ok (35 / 36, 1 / 36).
Proof.
  rewrite (sample_of_transfer_matrix _ _ _ _ transfer_matrix_film_spacer).
  - unfold lossless_M. rewrite other_index_eq. simpl.
    f_equal. f_equal; field.
  - apply lossless_M_m00; lra.
Qed.

Lemma assemble_film_spacer :
  assemble [film; spacer] [1] 0 =
  Ok ([lossless_Dinv air_index;
       lossless_D 2; lossless_P (PI / 2); lossless_Dinv 2;
       lossless_D (3 / 2); lossless_P 0; lossless_Dinv (3 / 2);
       lossless_D other_index],
      [lossless_Dinv air_index;
       lossless_D (3 / 2); lossless_P 0; lossless_Dinv (3 / 2);
       lossless_D other_index]).
Proof.
  unfold assemble. cbn [getitem nth_error bind].
  rewrite Light_init_ok by (unfold um; lra).
  cbn [bind omega]. rewrite inverse_D0. cbn [bind foldM].
  rewrite (lossless_layer_body _ 0 _ film 2) by (try reflexivity; lra).
  cbn [bind].
  rewrite (lossless_layer_body _ 0 _ spacer (3 / 2)) by (try reflexivity; lra).
  cbn [bind M_list D_P_Dinv app]. rewrite Ds_normal.
  fold (phase 2 1 (thickness film)).
  fold (phase (3 / 2) 1 (thickness spacer)).
  rewrite phase_film, phase_spacer. reflexivity.
Qed.

Lemma full_product_film_spacer :
  multilayer_matrix
    [lossless_Dinv air_index;
     lossless_D 2; lossless_P (PI / 2); lossless_Dinv 2;
     lossless_D (3 / 2); lossless_P 0; lossless_Dinv (3 / 2);
     lossless_D other_index] = Ok (lossless_M 2 0 1).
Proof.
  unfold multilayer_matrix, multi_dot. f_equal.
  change (fold_left mmul
            ([lossless_D 2; lossless_P (PI / 2); lossless_Dinv 2] ++
             [lossless_D (3 / 2); lossless_P 0; lossless_Dinv (3 / 2)] ++
             [lossless_D other_index]) (lossless_Dinv air_index)
          = lossless_M 2 0 1).
  rewrite !fold_left_app, lossless_P_0.
  rewrite (fold_triple_eye _ _ _ (inverse_lossless_D (3 / 2) ltac:(lra))).
  rewrite <- fold_left_app. cbn [app].
  rewrite lossless_product by lra.
  rewrite cos_PI2, sin_PI2. reflexivity.
Qed.

(** C1, at the stack [film; spacer].  The loop builds the complete list
    [M_list] of eight matrices (ambient inverse, the triple of [film], the
    triple of [spacer], substrate), but the matrix it composes is the product
    of five of them: the triple of [film] is left out.  The product of the
    complete list has the leading entry [-1.35j], the composed matrix has
    [1.2]. *)
Theorem main_composes_last_layer_only :
  exists (M_list used : list matrix) (M_full M_i : matrix),
    assemble [film; spacer] (wavelength film) 0 = Ok (M_list, used) /\
    List.length M_list = 8%nat /\
    List.length used = 5%nat /\
    multilayer_matrix M_list = Ok M_full /\
    transfer_matrix [film; spacer] (wavelength film) 0 = Ok M_i /\
    m00 M_full = mkC 0 (- (27 / 20)) /\
    m00 M_i = mkC (6 / 5) 0 /\
    M_i <> M_full.
Proof.
  do 2 eexists. exists (lossless_M 2 0 1), (lossless_M (3 / 2) 1 0).
  split; [apply assemble_film_spacer |].
  split; [reflexivity |]. split; [reflexivity |].
  split; [apply full_product_film_spacer |].
  split; [apply transfer_matrix_film_spacer |].
  assert (H1 : m00 (lossless_M 2 0 1) = mkC 0 (- (27 / 20))).
  { unfold lossless_M. rewrite other_index_eq. apply C_eq; simpl; field. }
  assert (H2 : m00 (lossless_M (3 / 2) 1 0) = mkC (6 / 5) 0).
  { unfold lossless_M. rewrite other_index_eq. apply C_eq; simpl; field. }
  split; [exact H1 |]. split; [exact H2 |].
  intros H. apply (f_equal m00) in H. rewrite H1, H2 in H.
  apply (f_equal re) in H. simpl in H. lra.
Qed.

(** C9, at the stack [film; spacer].  The layer [spacer] has thickness zero
    and its propagation matrix is the identity, yet the sweep of the stack
    without it returns another spectrum: [T = 35/36], [R = 1/36] with the
    layer and [T = 560/729], [R = 169/729] without. *)
Theorem zero_thickness_layer_changes_spectrum :
  thickness spacer = 0 /\
  (forall wavenumber : C, propagation_matrix spacer wavenumber = eye) /\
  main [film; spacer] = Ok ([35 / 36], [1 / 36]) /\
  main [film] = Ok ([560 / 729], [169 / 729]).
Proof.
  split; [reflexivity |].
  split; [intros kx; apply propagation_matrix_zero_thickness; reflexivity |].
  split.
  - unfold main.
    cbn [getitem nth_error bind wavelength film List.length seq foldM].
    rewrite sample_film_spacer. reflexivity.
  - unfold main.
    cbn [getitem nth_error bind wavelength film List.length seq foldM].
    rewrite sample_film. reflexivity.
Qed.

(** ** The complete list [M_list] and layers of thickness zero *)

(** The part of [M_list] a run of the loop appends depends on the layers
    only. *)
Lemma foldM_layer_body_M_list (omega : R) (i : nat) (layers : list Layer)
    (st s : locals) :
  foldM (layer_body omega i) layers st = Ok s ->
  exists rest,
    M_list s = M_list st ++ rest /\
    forall st2, exists s2,
      foldM (layer_body omega i) layers st2 = Ok s2 /\
      M_list s2 = M_list st2 ++ rest /\
      (layers <> [] -> D_P_Dinv s2 = D_P_Dinv s).
Proof.
  revert st s. induction layers as [| layer layers IH]; intros st s.
  - cbn [foldM]. intros H. injection H as <-. exists [].
    split; [symmetry; apply app_nil_r |].
    intros st2. exists st2. split; [reflexivity |].
    split; [symmetry; apply app_nil_r | intros H; now elim H].
  - cbn [foldM].
    destruct (layer_body omega i st layer) as [s1 | e] eqn:Hb; cbn [bind];
      [| discriminate].
    intros Hf. destruct (IH _ _ Hf) as (rest & Hrest & Hall).
    pose proof (layer_body_last _ _ _ _ st _ Hb) as (t & Ht & Hm & _).
    exists ([fst (fst t); snd (fst t); snd t] ++ rest).
    split; [rewrite Hrest, Hm, <- app_assoc; reflexivity |].
    intros st2.
    destruct (layer_body_last _ _ _ _ st2 _ Hb) as (t' & Ht' & _ & H2).
    rewrite Ht in Ht'. injection Ht' as <-.
    rewrite H2. cbn [bind].
    destruct (Hall (mkLocals (M_list st2 ++ [fst (fst t); snd (fst t); snd t])
                             (Some t))) as (s2 & Hs2 & Hm2 & Hd2).
    exists s2. split; [exact Hs2 |].
    split; [rewrite Hm2; cbn [M_list]; rewrite <- app_assoc; reflexivity |].
    intros _. destruct layers as [| l ls].
    + cbn [foldM] in Hs2, Hf. injection Hs2 as <-. injection Hf as <-.
      cbn [D_P_Dinv]. symmetry. exact Ht.
    + apply Hd2. discriminate.
Qed.

Lemma layer_body_inv (omega : R) (i : nat) (st s : locals) (layer : Layer) :
  layer_body omega i st layer = Ok s ->
  exists D P Dinv,
    M_list s = M_list st ++ [D; P; Dinv] /\
    inverse D = Ok Dinv /\
    (thickness layer = 0 -> P = eye).
Proof.
  unfold layer_body.
  destruct (getitem (index layer) i) as [n | e]; cbn [bind]; [| discriminate].
  destruct (getitem (extinct layer) i) as [ex | e]; cbn [bind]; [| discriminate].
  destruct (inverse _) as [Dinv | e] eqn:Hinv; cbn [bind]; [| discriminate].
  intros H. injection H as <-.
  do 3 eexists. split; [reflexivity |]. split; [exact Hinv |].
  apply propagation_matrix_zero_thickness.
Qed.

(** After a run of the loop over a non-empty list the loop-carried [D],
    [P], [Dinv] are bound. *)
Lemma foldM_layer_body_bound (omega : R) (i : nat) (layers : list Layer)
    (st s : locals) :
  layers <> [] ->
  foldM (layer_body omega i) layers st = Ok s ->
  exists t, D_P_Dinv s = Some t.
Proof.
  intros Hne Hf.
  destruct (@exists_last _ layers Hne) as (p & l & ->).
  destruct (foldM_layer_body_last _ _ _ _ _ _ st Hf) as (s' & Hs' & Hds').
  cbn [foldM] in Hs'.
  destruct (layer_body omega i st l) as [x | e] eqn:Hl; cbn [bind] in Hs';
    [| discriminate].
  injection Hs' as <-.
  destruct (layer_body_last _ _ _ _ st _ Hl) as (t & Ht & _).
  exists t. rewrite <- Hds'. exact Ht.
Qed.

Lemma multi_dot_snoc (A B : matrix) (xs : list matrix) :
  multi_dot (A :: xs ++ [B]) = Ok (fold_left mmul (xs ++ [B]) A).
Proof. destruct xs; reflexivity. Qed.

(** The product of the complete list does not change when a layer of
    thickness zero is taken out of the stack: the claim of the specification
    holds of the list the loop builds. *)
Lemma M_list_without_zero_thickness_layer (pre post : list Layer)
    (layer : Layer) (wavelen : list R) (i : nat) (ML used : list matrix) :
  thickness layer = 0 ->
  pre ++ post <> [] ->
  assemble (pre ++ layer :: post) wavelen i = Ok (ML, used) ->
  exists ML' used',
    assemble (pre ++ post) wavelen i = Ok (ML', used') /\
    multilayer_matrix ML' = multilayer_matrix ML.
Proof.
  intros Hd Hne. unfold assemble.
  destruct (getitem wavelen i) as [wl | e]; cbn [bind]; [| discriminate].
  destruct (Light_init (wl * um)) as [light | e]; cbn [bind]; [| discriminate].
  destruct (inverse _) as [D0inv | e]; cbn [bind]; [| discriminate].
  rewrite !foldM_app.
  destruct (foldM (layer_body (omega light) i) pre (mkLocals [D0inv] None))
    as [s1 | e] eqn:Hpre; cbn [bind foldM]; [| discriminate].
  destruct (layer_body (omega light) i s1 layer) as [s2 | e] eqn:Hb;
    cbn [bind]; [| discriminate].
  destruct (foldM (layer_body (omega light) i) post s2) as [s3 | e] eqn:Hpost;
    cbn [bind]; [| discriminate].
  destruct (D_P_Dinv s3) as [[[D P] Dinv] |] eqn:Hs3; [| discriminate].
  intros H. injection H as <- <-.
  destruct (foldM_layer_body_M_list _ _ _ _ _ Hpre) as (r1 & Hr1 & _).
  destruct (foldM_layer_body_M_list _ _ _ _ _ Hpost) as (r3 & Hr3 & Hall).
  destruct (Hall s1) as (s3' & Hs3' & Hm3' & Hd3').
  rewrite Hs3'. cbn [bind].
  assert (Hsome : exists t, D_P_Dinv s3' = Some t).
  { destruct post as [| l ls].
    - cbn [foldM] in Hs3'. injection Hs3' as <-.
      rewrite app_nil_r in Hne.
      apply (foldM_layer_body_bound _ _ _ _ _ Hne Hpre).
    - exists (D, P, Dinv). rewrite Hd3' by discriminate. exact Hs3. }
  destruct Hsome as ([[D' P'] Dinv'] & ->).
  do 2 eexists. split; [reflexivity |].
  destruct (layer_body_inv _ _ _ _ _ Hb) as (Dz & Pz & Dzinv & Hm2 & Hinv & HP).
  rewrite (HP Hd) in Hm2.
  rewrite Hm3', Hr3, Hm2, Hr1. cbn [M_list app].
  unfold multilayer_matrix.
  rewrite !multi_dot_snoc.
  f_equal. rewrite !fold_left_app.
  rewrite (fold_triple_eye _ _ _ Hinv). reflexivity.
Qed.

(** * Further properties of the code *)

(** ** Inversion and composition of matrices *)

Lemma det_eye : det eye = RtoC 1.
Proof. unfold det, eye. c_ring. Qed.

Lemma Cmul_eq_1_neq_0 (a b : C) : (a * b)%C = RtoC 1 -> a <> RtoC 0.
Proof.
  intros H ->. apply (f_equal re) in H. simpl in H. lra.
Qed.

(** A right inverse is the matrix [inverse] returns. *)
Lemma inverse_unique (A B : matrix) : mmul A B = eye -> inverse A = Ok B.
Proof.
  intros HAB.
  assert (Hd : det A <> RtoC 0).
  { apply (Cmul_eq_1_neq_0 _ (det B)). rewrite <- det_mmul, HAB. apply det_eye. }
  destruct (inverse A) as [A' | e] eqn:HA.
  - f_equal.
    rewrite <- (mmul_eye_r A'), <- HAB, <- mmul_assoc.
    rewrite (inverse_mmul_l _ _ HA). apply mmul_eye_l.
  - rewrite (inverse_ok _ Hd) in HA. discriminate.
Qed.

(** X1.  Whenever [inverse(M)] returns a matrix, that matrix is a two-sided
    inverse: its product with [M] is the identity on either side. *)
Theorem inverse_two_sided (M Minv : matrix) :
  inverse M = Ok Minv -> mmul M Minv = eye /\ mmul Minv M = eye.
Proof.
  intros H. split; [apply (inverse_mmul_r _ _ H) | apply (inverse_mmul_l _ _ H)].
Qed.

Lemma inverse_two_sided_witness :
  inverse (lossless_D 2) = Ok (lossless_Dinv 2) /\
  mmul (lossless_D 2) (lossless_Dinv 2) = eye /\
  mmul (lossless_Dinv 2) (lossless_D 2) = eye.
Proof.
  assert (H : inverse (lossless_D 2) = Ok (lossless_Dinv 2))
    by (apply inverse_lossless_D; lra).
  split; [exact H | apply (inverse_two_sided _ _ H)].
Defined.

(** X2.  [inverse] undoes itself: when [inverse(M)] returns [Minv], then
    [inverse(Minv)] returns [M]; the inverse of an invertible matrix is never
    singular. *)
Theorem inverse_involutive (M Minv : matrix) :
  inverse M = Ok Minv -> inverse Minv = Ok M.
Proof.
  intros H. apply inverse_unique. apply (inverse_mmul_l _ _ H).
Qed.

Lemma inverse_involutive_witness :
  inverse (lossless_D 2) = Ok (lossless_Dinv 2) /\
  inverse (lossless_Dinv 2) = Ok (lossless_D 2).
Proof.
  assert (H : inverse (lossless_D 2) = Ok (lossless_Dinv 2))
    by (apply inverse_lossless_D; lra).
  split; [exact H | apply (inverse_involutive _ _ H)].
Defined.

(** X3.  The inverse of a product is the product of the inverses in the
    opposite order: when [inverse(A)] and [inverse(B)] return [Ainv] and
    [Binv], [inverse(A * B)] returns [Binv * Ainv]. *)
Theorem inverse_mmul (A B Ainv Binv : matrix) :
  inverse A = Ok Ainv -> inverse B = Ok Binv ->
  inverse (mmul A B) = Ok (mmul Binv Ainv).
Proof.
  intros HA HB. apply inverse_unique.
  rewrite mmul_assoc, <- (mmul_assoc B Binv Ainv).
  rewrite (inverse_mmul_r _ _ HB), mmul_eye_l.
  apply (inverse_mmul_r _ _ HA).
Qed.

Lemma inverse_mmul_witness :
  inverse (lossless_D 2) = Ok (lossless_Dinv 2) /\
  inverse (lossless_D 3) = Ok (lossless_Dinv 3) /\
  inverse (mmul (lossless_D 2) (lossless_D 3)) =
  Ok (mmul (lossless_Dinv 3) (lossless_Dinv 2)).
Proof.
  assert (H2 : inverse (lossless_D 2) = Ok (lossless_Dinv 2))
    by (apply inverse_lossless_D; lra).
  assert (H3 : inverse (lossless_D 3) = Ok (lossless_Dinv 3))
    by (apply inverse_lossless_D; lra).
  split; [exact H2 |]. split; [exact H3 | apply (inverse_mmul _ _ _ _ H2 H3)].
Defined.

(** The product of a list of matrices, in list order. *)
Lemma fold_left_mmul (l : list matrix) (A : matrix) :
  fold_left mmul l A = mmul A (fold_left mmul l eye).
Proof.
  revert A. induction l as [| B l IH]; intros A; cbn [fold_left].
  - symmetry. apply mmul_eye_r.
  - rewrite (IH (mmul A B)), (IH (mmul eye B)), mmul_eye_l, mmul_assoc.
    reflexivity.
Qed.

Lemma multilayer_matrix_fold (l : list matrix) (M : matrix) :
  multilayer_matrix l = Ok M -> M = fold_left mmul l eye.
Proof.
  unfold multilayer_matrix, multi_dot.
  destruct l as [| A [| B l]]; try discriminate.
  intros H. injection H as <-. cbn [fold_left]. rewrite !mmul_eye_l. reflexivity.
Qed.

Lemma multilayer_matrix_two (l : list matrix) :
  (2 <= List.length l)%nat -> multilayer_matrix l = Ok (fold_left mmul l eye).
Proof.
  unfold multilayer_matrix, multi_dot.
  destruct l as [| A [| B l]]; cbn [List.length]; try lia.
  intros _. cbn [fold_left]. rewrite !mmul_eye_l. reflexivity.
Qed.

(** X4.  A chain of matrices can be composed in two parts: when
    [multilayer_matrix] returns [X] for a list and [Y] for another, it returns
    the product [X * Y] for the two lists joined. *)
Theorem multilayer_matrix_app (xs ys : list matrix) (X Y : matrix) :
  multilayer_matrix xs = Ok X -> multilayer_matrix ys = Ok Y ->
  multilayer_matrix (xs ++ ys) = Ok (mmul X Y).
Proof.
  intros HX HY.
  assert (Hlen : (2 <= List.length (xs ++ ys))%nat).
  { rewrite length_app. destruct xs as [| A [| B xs]]; try discriminate.
    cbn [List.length]. lia. }
  rewrite (multilayer_matrix_two _ Hlen), fold_left_app.
  rewrite (multilayer_matrix_fold _ _ HX), (multilayer_matrix_fold _ _ HY).
  rewrite fold_left_mmul. reflexivity.
Qed.

Lemma multilayer_matrix_app_witness :
  multilayer_matrix [lossless_Dinv 2; lossless_D 3] =
    Ok (mmul (lossless_Dinv 2) (lossless_D 3)) /\
  multilayer_matrix [lossless_Dinv 3; lossless_D 2] =
    Ok (mmul (lossless_Dinv 3) (lossless_D 2)) /\
  multilayer_matrix ([lossless_Dinv 2; lossless_D 3] ++
                     [lossless_Dinv 3; lossless_D 2]) =
    Ok (mmul (mmul (lossless_Dinv 2) (lossless_D 3))
             (mmul (lossless_Dinv 3) (lossless_D 2))).
Proof.
  split; [reflexivity |]. split; [reflexivity |].
  apply (multilayer_matrix_app [lossless_Dinv 2; lossless_D 3]
                               [lossless_Dinv 3; lossless_D 2]);
    reflexivity.
Defined.

Lemma det_fold_left (l : list matrix) (E : matrix) :
  det (fold_left mmul l E) = fold_left Cmul (map det l) (det E).
Proof.
  revert E. induction l as [| A l IH]; intros E; cbn [fold_left map].
  - reflexivity.
  - rewrite IH, det_mmul. reflexivity.
Qed.

(** The determinant of a composed chain is the product of the determinants
    of its matrices. *)
Lemma multilayer_matrix_det (array : list matrix) (M : matrix) :
  multilayer_matrix array = Ok M ->
  det M = fold_left Cmul (map det array) (RtoC 1).
Proof.
  intros H. rewrite (multilayer_matrix_fold _ _ H), det_fold_left, det_eye.
  reflexivity.
Qed.

(** ** The matrices of a layer, continued *)

Lemma Cexp_add (a b : C) : Cexp (a + b) = (Cexp a * Cexp b)%C.
Proof.
  unfold Cexp. apply C_eq; simpl; rewrite exp_plus.
  - rewrite cos_plus. ring.
  - rewrite sin_plus. ring.
Qed.

Lemma Cexp_opp (a : C) : (Cexp (- a) * Cexp a)%C = RtoC 1.
Proof.
  rewrite <- Cexp_add.
  replace (- a + a)%C with (RtoC 0) by c_ring. apply Cexp_0.
Qed.

Lemma det_propagation_matrix (layer : Layer) (wavenumber : C) :
  det (propagation_matrix layer wavenumber) = RtoC 1.
Proof.
  unfold propagation_matrix, det. cbn [m00 m01 m10 m11].
  replace (- Cj * (wavenumber * RtoC (thickness layer)))%C
    with (- (Cj * (wavenumber * RtoC (thickness layer))))%C by c_ring.
  rewrite Cexp_opp. c_ring.
Qed.

(** X6.  A propagation matrix is never singular: its determinant is 1 for
    every layer and every complex wavenumber, and [inverse] returns the
    propagation matrix of the opposite wavenumber. *)
Theorem propagation_matrix_inverse (layer : Layer) (wavenumber : C) :
  det (propagation_matrix layer wavenumber) = RtoC 1 /\
  inverse (propagation_matrix layer wavenumber) =
  Ok (propagation_matrix layer (- wavenumber)).
Proof.
  split; [apply det_propagation_matrix |].
  apply inverse_unique. unfold propagation_matrix, mmul.
  cbn [m00 m01 m10 m11].
  replace (- Cj * (- wavenumber * RtoC (thickness layer)))%C
    with (Cj * (wavenumber * RtoC (thickness layer)))%C by c_ring.
  replace (Cj * (- wavenumber * RtoC (thickness layer)))%C
    with (- (Cj * (wavenumber * RtoC (thickness layer))))%C by c_ring.
  replace (- Cj * (wavenumber * RtoC (thickness layer)))%C
    with (- (Cj * (wavenumber * RtoC (thickness layer))))%C by c_ring.
  set (z := (Cj * (wavenumber * RtoC (thickness layer)))%C).
  pose proof (Cexp_opp z) as H1.
  assert (H2 : (Cexp z * Cexp (- z))%C = RtoC 1).
  { rewrite <- H1. c_ring. }
  unfold eye. apply M_eq; cbn [m00 m01 m10 m11].
  - rewrite H1. c_ring.
  - c_ring.
  - c_ring.
  - rewrite H2. c_ring.
Qed.



Lemma Cmul_R_eq_0 (a : C) (x : R) :
  (a * RtoC x)%C = RtoC 0 <-> a = RtoC 0 \/ x = 0.
Proof.
  split.
  - intros H. apply (f_equal re) in H as Hr. apply (f_equal im) in H as Hi.
    simpl in Hr, Hi. destruct (Req_dec x 0) as [Hx | Hx]; [right; exact Hx |].
    left. apply C_eq; simpl.
    + assert (E : re a * x = 0) by lra.
      apply Rmult_integral in E. tauto.
    + assert (E : im a * x = 0) by lra.
      apply Rmult_integral in E. tauto.
  - intros [-> | ->]; c_ring.
Qed.

Lemma dynamical_matrix_det (n_ : C) (theta : R) :
  det (fst (dynamical_matrix n_ theta)) = (RtoC (-2) * (n_ * cos theta))%C /\
  det (snd (dynamical_matrix n_ theta)) = (RtoC (-2) * (n_ * cos theta))%C.
Proof.
  unfold dynamical_matrix, det. cbn [fst snd m00 m01 m10 m11].
  split; c_ring.
Qed.

(** X8.  The s-wave and the p-wave dynamical matrix have the same
    determinant, [-2 n cos(theta)], at every angle, so [inverse] raises
    [LinAlgError] on either of them exactly when the index is zero or the
    cosine of the angle is zero. *)
Theorem dynamical_matrix_singular (n_ : C) (theta : R) :
  det (fst (dynamical_matrix n_ theta)) = det (snd (dynamical_matrix n_ theta)) /\
  (inverse (fst (dynamical_matrix n_ theta)) = Raise LinAlgError <->
   n_ = RtoC 0 \/ cos theta = 0) /\
  (inverse (snd (dynamical_matrix n_ theta)) = Raise LinAlgError <->
   n_ = RtoC 0 \/ cos theta = 0).
Proof.
  destruct (dynamical_matrix_det n_ theta) as [Hs Hp].
  assert (Hz : forall M, det M = (RtoC (-2) * (n_ * cos theta))%C ->
             (inverse M = Raise LinAlgError <-> n_ = RtoC 0 \/ cos theta = 0)).
  { intros M HM. rewrite <- Cmul_R_eq_0. split.
    - intros H. destruct (Ceq_dec (det M) (RtoC 0)) as [E | E].
      + rewrite HM in E. apply (f_equal re) in E as Er.
        apply (f_equal im) in E as Ei. simpl in Er, Ei.
        apply C_eq; simpl; lra.
      + rewrite (inverse_ok _ E) in H. discriminate.
    - intros H. apply inverse_singular. rewrite HM, H. c_ring. }
  split; [rewrite Hs, Hp; reflexivity |].
  split; apply Hz; assumption.
Qed.

(** X9.  The two components [wavenumber] returns are those of a vector of
    length [n omega / c]: their squares add up to its square at every angle,
    and at normal incidence the first is [n omega / c] itself and the second
    is zero. *)
Theorem wavenumber_components (n : C) (omega theta : R) :
  let k := Cquot (n * omega) sc.c in
  (k * sc.c)%C = (n * omega)%C /\
  (fst (wavenumber n omega theta) * fst (wavenumber n omega theta) +
   snd (wavenumber n omega theta) * snd (wavenumber n omega theta))%C
  = (k * k)%C /\
  wavenumber n omega 0 = (k, RtoC 0).
Proof.
  intros k. split; [| split].
  - unfold k. apply Cquot_mul, RtoC_neq_0, c_neq_0.
  - unfold wavenumber. cbn [fst snd]. fold k.
    pose proof (cos_sin_1 theta) as H.
    apply C_eq; simpl; ring_simplify.
    + replace (sin theta ^ 2) with (1 - cos theta ^ 2) by (simpl; nra). ring.
    + replace (sin theta ^ 2) with (1 - cos theta ^ 2) by (simpl; nra). ring.
  - unfold wavenumber. fold k. rewrite cos_0, sin_0. f_equal; c_ring.
Qed.

(** ** Invariants of the sweep *)

(** Where the loop-carried matrices come from: a pass of the loop. *)
Lemma foldM_layer_body_carried (omega : R) (i : nat) (layers : list Layer)
    (st s : locals) (D P Dinv : matrix) :
  foldM (layer_body omega i) layers st = Ok s ->
  D_P_Dinv s = Some (D, P, Dinv) ->
  D_P_Dinv st = Some (D, P, Dinv) \/
  (inverse D = Ok Dinv /\ det P = RtoC 1).
Proof.
  revert st. induction layers as [| layer layers IH]; intros st; cbn [foldM].
  - intros H. injection H as <-. auto.
  - destruct (layer_body omega i st layer) as [s1 | e] eqn:Hb; cbn [bind];
      [| discriminate].
    intros Hf Hs. destruct (IH _ Hf Hs) as [H1 | H1]; [| auto].
    right. revert Hb. unfold layer_body.
    destruct (getitem (index layer) i) as [n | e]; cbn [bind]; [| discriminate].
    destruct (getitem (extinct layer) i) as [ex | e]; cbn [bind];
      [| discriminate].
    destruct (inverse (fst (dynamical_matrix _ 0))) as [Di | e] eqn:Hinv;
      cbn [bind]; [| discriminate].
    intros H. injection H as <-. cbn [D_P_Dinv] in H1.
    injection H1 as <- <- <-.
    split; [exact Hinv | apply det_propagation_matrix].
Qed.

Lemma det_inverse (A Ainv : matrix) :
  inverse A = Ok Ainv -> (det A * det Ainv)%C = RtoC 1.
Proof.
  intros H. rewrite <- det_mmul, (inverse_mmul_r _ _ H). apply det_eye.
Qed.

Lemma transfer_matrix_det_aux (a b : R) (D0inv D P Dinv : matrix) :
  inverse (mkM 1 1 (RtoC a) (- RtoC a)) = Ok D0inv ->
  inverse D = Ok Dinv -> det P = RtoC 1 ->
  det (fold_left mmul [D; P; Dinv; mkM 1 1 (RtoC b) (- RtoC b)] D0inv) =
  RtoC (b / a).
Proof.
  intros H0 HD HP. cbn [fold_left]. rewrite !det_mmul, HP.
  pose proof (det_inverse _ _ H0) as E0. pose proof (det_inverse _ _ HD) as ED.
  assert (Ha : a <> 0).
  { intros ->. rewrite det_Ds in E0. apply (f_equal re) in E0. simpl in E0. lra. }
  transitivity (det D0inv * (det D * det Dinv) * det (mkM 1 1 (RtoC b) (- RtoC b)))%C;
    [c_ring |].
  rewrite ED, !det_Ds in *.
  set (X := det D0inv) in *. clearbody X.
  apply (f_equal re) in E0 as Er. apply (f_equal im) in E0 as Ei.
  simpl in Er, Ei.
  assert (Hre : re X = - / (2 * a)) by (field_simplify_eq; [lra | exact Ha]).
  assert (Him : im X = 0).
  { assert (E : a * im X = 0) by lra.
    apply Rmult_integral in E. tauto. }
  apply C_eq; simpl; rewrite Hre, Him; field; exact Ha.
Qed.

(** The matrix the sweep composes has the determinant
    [other.index / air.index], whatever the layers are. *)
Lemma transfer_matrix_det (layers : list Layer) (wavelen : list R) (i : nat)
    (M_i : matrix) :
  transfer_matrix layers wavelen i = Ok M_i ->
  det M_i = RtoC (other_index / air_index).
Proof.
  unfold transfer_matrix, assemble.
  destruct (getitem wavelen i) as [wl | e]; cbn [bind]; [| discriminate].
  destruct (Light_init (wl * um)) as [light | e]; cbn [bind]; [| discriminate].
  destruct (inverse _) as [D0inv | e] eqn:H0; cbn [bind]; [| discriminate].
  destruct (foldM _ layers _) as [st | e] eqn:Hf; cbn [bind]; [| discriminate].
  destruct (D_P_Dinv st) as [[[D P] Dinv] |] eqn:Hs; [| discriminate].
  cbn [bind]. unfold multilayer_matrix, multi_dot.
  intros H. injection H as <-.
  destruct (foldM_layer_body_carried _ _ _ _ _ _ _ _ Hf Hs) as [H1 | [HD HP]];
    [discriminate |].
  change (det (fold_left mmul [D; P; Dinv; fst (dynamical_matrix other_index 0)]
                         D0inv) = RtoC (other_index / air_index)).
  rewrite Ds_normal in H0 |- *.
  apply (transfer_matrix_det_aux _ _ _ _ _ _ H0 HD HP).
Qed.

Lemma Cnorm_pos (a : C) : a <> RtoC 0 -> 0 < re a * re a + im a * im a.
Proof.
  intros H. pose proof (C_neq_0_norm a H). nra.
Qed.

(** [R] and [t] in terms of the entries of the matrix. *)
Lemma reflectance_R_value (M : matrix) (R_ : R) (r : C) :
  reflectance M = Ok (R_, r) ->
  m00 M <> RtoC 0 /\
  R_ = (re (m10 M) * re (m10 M) + im (m10 M) * im (m10 M)) /
       (re (m00 M) * re (m00 M) + im (m00 M) * im (m00 M)).
Proof.
  destruct (Ceq_dec (m00 M) (RtoC 0)) as [E | E].
  { unfold reflectance. rewrite E, py_cdiv_zero. discriminate. }
  rewrite (reflectance_ok _ E). intros H. split; [exact E |].
  assert (HR : R_ = re (Cquot (m10 M) (m00 M) * Cconj (Cquot (m10 M) (m00 M))))
    by congruence.
  rewrite HR. pose proof (C_neq_0_norm _ E). simpl. field. assumption.
Qed.

Lemma transmittance_T_value {A : Type} (M : matrix) (n0 ns theta_0 theta_s : A)
    (T t : C) :
  transmittance M n0 ns theta_0 theta_s = Ok (T, t) ->
  m00 M <> RtoC 0 /\
  re t * re t + im t * im t =
    / (re (m00 M) * re (m00 M) + im (m00 M) * im (m00 M)) /\
  T = (det M * RtoC (re t * re t + im t * im t))%C.
Proof.
  destruct (Ceq_dec (m00 M) (RtoC 0)) as [E | E].
  { unfold transmittance. rewrite E, py_cdiv_zero. discriminate. }
  rewrite (transmittance_ok _ _ _ _ _ E). intros H. split; [exact E |].
  assert (Ht : t = Cquot 1 (m00 M)) by congruence.
  assert (HT : T = (det M * RtoC (re (t * Cconj t)))%C) by congruence.
  pose proof (C_neq_0_norm _ E). split.
  - rewrite Ht. simpl. field. assumption.
  - rewrite HT. f_equal. f_equal. simpl. ring.
Qed.



(** X11.  The reflectance [R] that [reflectance] returns is never negative,
    and it is zero exactly when the entry [M[1,0]] is zero. *)
Theorem reflectance_nonneg (M : matrix) (R_ : R) (r : C) :
  reflectance M = Ok (R_, r) ->
  0 <= R_ /\ (R_ = 0 <-> m10 M = RtoC 0).
Proof.
  intros H. destruct (reflectance_R_value _ _ _ H) as (E & ->).
  pose proof (Cnorm_pos _ E) as Hn.
  pose proof (Rinv_0_lt_compat _ Hn) as Hi.
  split; [unfold Rdiv; apply Rmult_le_pos; [nra | lra] |].
  split.
  - intros H0.
    assert (Hz : re (m10 M) * re (m10 M) + im (m10 M) * im (m10 M) = 0).
    { apply (Rmult_eq_reg_r
               (/ (re (m00 M) * re (m00 M) + im (m00 M) * im (m00 M))));
        [rewrite Rmult_0_l; exact H0 | lra]. }
    apply C_eq; simpl; nra.
  - intros ->. simpl. field. lra.
Qed.

Lemma reflectance_nonneg_witness :
  reflectance (mkM 2 0 1 1) =
    Ok (re (Cquot (m10 (mkM 2 0 1 1)) (m00 (mkM 2 0 1 1)) *
            Cconj (Cquot (m10 (mkM 2 0 1 1)) (m00 (mkM 2 0 1 1)))),
        Cquot (m10 (mkM 2 0 1 1)) (m00 (mkM 2 0 1 1))) /\
  0 <= re (Cquot (m10 (mkM 2 0 1 1)) (m00 (mkM 2 0 1 1)) *
           Cconj (Cquot (m10 (mkM 2 0 1 1)) (m00 (mkM 2 0 1 1)))) /\
  (re (Cquot (m10 (mkM 2 0 1 1)) (m00 (mkM 2 0 1 1)) *
       Cconj (Cquot (m10 (mkM 2 0 1 1)) (m00 (mkM 2 0 1 1)))) = 0 <->
   m10 (mkM 2 0 1 1) = RtoC 0).
Proof.
  assert (H0 : m00 (mkM 2 0 1 1) <> RtoC 0)
    by (apply RtoC_neq_0; lra).
  pose proof (reflectance_ok _ H0) as HR.
  split; [exact HR | apply (reflectance_nonneg _ _ _ HR)].
Defined.

Lemma sample_inv (layers : list Layer) (wavelen : list R) (i : nat)
    (trn ref : R) :
  sample layers wavelen i = Ok (trn, ref) ->
  exists M_i T t r,
    transfer_matrix layers wavelen i = Ok M_i /\
    transmittance M_i air_index other_index 0 0 = Ok (T, t) /\
    reflectance M_i = Ok (ref, r) /\ trn = re T.
Proof.
  unfold sample.
  destruct (transfer_matrix layers wavelen i) as [M | e]; cbn [bind];
    [| discriminate].
  destruct (transmittance M air_index other_index 0 0) as [[T t] | e] eqn:HT;
    cbn [bind]; [| discriminate].
  destruct (reflectance M) as [[ref' r] | e] eqn:HR; cbn [bind];
    [| discriminate].
  intros H. assert (trn = re T /\ ref = ref') as [-> ->] by (split; congruence).
  exists M, T, t, r. auto.
Qed.

(** Every sample the sweep produces has a positive [T] and a non-negative
    [R]. *)
Lemma sample_range (layers : list Layer) (wavelen : list R) (i : nat)
    (trn ref : R) :
  sample layers wavelen i = Ok (trn, ref) -> 0 < trn /\ 0 <= ref.
Proof.
  intros H.
  destruct (sample_inv _ _ _ _ _ H) as (M & T & t & r & HM & HT & HR & ->).
  pose proof (transfer_matrix_det _ _ _ _ HM) as Hd.
  destruct (transmittance_T_value _ _ _ _ _ _ _ HT) as (E & Hq & ->).
  destruct (reflectance_R_value _ _ _ HR) as (_ & ->).
  pose proof (Rinv_0_lt_compat _ (Cnorm_pos _ E)) as Hi.
  split.
  - rewrite Hd. simpl. rewrite Hq, air_index_eq, other_index_eq. nra.
  - unfold Rdiv. apply Rmult_le_pos; [nra | lra].
Qed.

(** X12.  Energy conservation in exact arithmetic: for a non-empty stack
    whose layers all have extinction zero and a non-zero index at the sample,
    and a non-zero wavelength entry, the sweep produces the sample, its [R]
    and [T] add up to exactly one, and [0 <= R < 1], [0 < T <= 1]. *)
Theorem lossless_sample_range (layers : list Layer) (wavelen : list R)
    (i : nat) (wl : R) :
  layers <> [] ->
  nth_error wavelen i = Some wl -> wl <> 0 ->
  Forall (fun layer => exists n, nth_error (index layer) i = Some n /\
                                 nth_error (extinct layer) i = Some 0 /\
                                 n <> 0) layers ->
  exists trn ref,
    sample layers wavelen i = Ok (trn, ref) /\
    ref + trn = 1 /\ 0 <= ref < 1 /\ 0 < trn <= 1.
Proof.
  intros Hne Hw Hw0 Hall.
  destruct (lossless_sample_total _ _ _ _ Hne Hw Hw0 Hall)
    as (trn & ref & Hs & Hsum).
  exists trn, ref. split; [exact Hs |]. split; [exact Hsum |].
  destruct (sample_range _ _ _ _ _ Hs). lra.
Qed.

Lemma film_spacer_lossless :
  Forall (fun layer => exists n, nth_error (index layer) 0 = Some n /\
                                 nth_error (extinct layer) 0 = Some 0 /\
                                 n <> 0) [film; spacer].
Proof.
  repeat constructor.
  - exists 2. repeat split. lra.
  - exists (3 / 2). repeat split. lra.
Qed.

Lemma lossless_sample_range_witness :
  [film; spacer] <> [] /\
  nth_error [1] 0 = Some 1 /\ 1 <> 0 /\
  Forall (fun layer => exists n, nth_error (index layer) 0 = Some n /\
                                 nth_error (extinct layer) 0 = Some 0 /\
                                 n <> 0) [film; spacer] /\
  exists trn ref,
    sample [film; spacer] [1] 0 = Ok (trn, ref) /\
    ref + trn = 1 /\ 0 <= ref < 1 /\ 0 < trn <= 1.
Proof.
  assert (H1 : [film; spacer] <> []) by discriminate.
  assert (H3 : 1 <> 0) by lra.
  split; [exact H1 |]. split; [reflexivity |]. split; [exact H3 |].
  split; [exact film_spacer_lossless |].
  apply (lossless_sample_range [film; spacer] [1] 0%nat 1 H1 eq_refl H3
                               film_spacer_lossless).
Defined.

(** ** Layers with extinction

    With a non-negative index, extinction coefficient and thickness a layer
    absorbs: what is reflected and what is transmitted cannot exceed what
    comes in. *)


















(** ** The sweep as a whole *)

(** The loop of [main] over the samples [ks], from the lists [T0], [R0]. *)
Lemma main_loop_ok (layers : list Layer) (wavelen : list R) (ks : list nat)
    (T0 R0 T R : list R) :
  foldM (fun '(T, R) i =>
           '(trn, ref) <- sample layers wavelen i ;;
           Ok (T ++ [trn], R ++ [ref])) ks (T0, R0) = Ok (T, R) ->
  exists Ts Rs,
    T = T0 ++ Ts /\ R = R0 ++ Rs /\
    List.length Ts = List.length ks /\ List.length Rs = List.length ks /\
    forall k, (k < List.length ks)%nat ->
      sample layers wavelen (nth k ks 0%nat) = Ok (nth k Ts 0, nth k Rs 0).
Proof.
  revert T0 R0. induction ks as [| i ks IH]; intros T0 R0; cbn [foldM].
  - intros H. injection H as <- <-. exists [], [].
    rewrite !app_nil_r. repeat split; auto. cbn. lia.
  - destruct (sample layers wavelen i) as [[trn ref] | e] eqn:Hs; cbn [bind];
      [| discriminate].
    intros H. destruct (IH _ _ H) as (Ts & Rs & -> & -> & HT & HR & Hk).
    exists (trn :: Ts), (ref :: Rs).
    rewrite <- !app_assoc. cbn [app List.length].
    repeat split; auto.
    intros [| k] Hlt; cbn [nth]; [exact Hs | apply Hk; cbn in Hlt; lia].
Qed.


(** X13.  When [main] completes, [T] and [R] hold one value each per entry
    of the wavelength list of the first layer, and the values at position [i]
    are the transmittance and reflectance of sample [i]. *)
Theorem main_pointwise (layers : list Layer) (T R : list R) :
  main layers = Ok (T, R) ->
  exists au rest,
    layers = au :: rest /\
    List.length T = List.length (wavelength au) /\
    List.length R = List.length (wavelength au) /\
    forall i, (i < List.length (wavelength au))%nat ->
      sample layers (wavelength au) i = Ok (nth i T 0, nth i R 0).
Proof.
  unfold main. destruct layers as [| au rest]; [discriminate |].
  cbn [getitem nth_error bind]. intros H.
  destruct (main_loop_ok _ _ _ _ _ _ _ H) as (Ts & Rs & -> & -> & HT & HR & Hk).
  rewrite length_seq in HT, HR, Hk. cbn [app].
  exists au, rest. repeat split; auto.
  intros i Hi. specialize (Hk i Hi). rewrite seq_nth in Hk by exact Hi.
  exact Hk.
Qed.

Lemma main_film : main [film] = Ok ([560 / 729], [169 / 729]).
Proof.
  unfold main.
  cbn [getitem nth_error bind wavelength film List.length seq foldM].
  rewrite sample_film. reflexivity.
Qed.

Lemma main_pointwise_witness :
  main [film] = Ok ([560 / 729], [169 / 729]) /\
  exists au rest,
    [film] = au :: rest /\
    List.length [560 / 729] = List.length (wavelength au) /\
    List.length [169 / 729] = List.length (wavelength au) /\
    forall i, (i < List.length (wavelength au))%nat ->
      sample [film] (wavelength au) i =
      Ok (nth i [560 / 729] 0, nth i [169 / 729] 0).
Proof.
  split; [exact main_film | apply (main_pointwise _ _ _ main_film)].
Defined.




(** What a run of the loop over the layers tells about the data. *)
Lemma foldM_layer_body_inv (omega : R) (i : nat) (layers : list Layer)
    (st s : locals) :
  foldM (layer_body omega i) layers st = Ok s -> Forall (layer_ok i) layers.
Proof.
  revert st. induction layers as [| layer layers IH]; intros st; cbn [foldM].
  - constructor.
  - destruct (layer_body omega i st layer) as [s1 | e] eqn:Hb; cbn [bind];
      [| discriminate].
    intros Hf. constructor; [| apply (IH _ Hf)].
    revert Hb. unfold layer_body.
    destruct (getitem (index layer) i) as [n | e] eqn:Hi; cbn [bind];
      [| discriminate].
    destruct (getitem (extinct layer) i) as [ex | e] eqn:He; cbn [bind];
      [| discriminate].
    rewrite Ds_normal.
    destruct (Ceq_dec (RtoC n + Cj * RtoC ex)%C (RtoC 0)) as [Hz | Hnz].
    { rewrite inverse_singular; [discriminate |]. rewrite det_Ds, Hz. c_ring. }
    intros _. exists n, ex. repeat split; auto using getitem_inv.
Qed.

(** X15.  A sample is produced only from complete data: the stack is not
    empty, the wavelength entry exists and is not zero, and every layer of
    the stack, not only the last, has an index and an extinction entry at the
    sample that are not both zero. *)
Theorem sample_requires_data (layers : list Layer) (wavelen : list R)
    (i : nat) (trn ref : R) :
  sample layers wavelen i = Ok (trn, ref) ->
  layers <> [] /\
  (exists wl, nth_error wavelen i = Some wl /\ wl <> 0) /\
  Forall (fun layer =>
            (i < List.length (index layer))%nat /\
            (i < List.length (extinct layer))%nat /\
            (nth i (index layer) 0 <> 0 \/ nth i (extinct layer) 0 <> 0))
         layers.
Proof.
  unfold sample, transfer_matrix, assemble.
  destruct (getitem wavelen i) as [wl | e] eqn:Hw; cbn [bind]; [| discriminate].
  destruct (Req_dec wl 0) as [-> | Hw0].
  { rewrite Rmult_0_l, Light_init_zero. discriminate. }
  destruct (Light_init (wl * um)) as [light | e]; cbn [bind]; [| discriminate].
  destruct (inverse _) as [D0inv | e]; cbn [bind]; [| discriminate].
  destruct (foldM _ layers _) as [st | e] eqn:Hf; cbn [bind]; [| discriminate].
  intros H. split; [| split].
  - intros ->. cbn [foldM] in Hf. injection Hf as <-.
    cbn [D_P_Dinv bind] in H. discriminate.
  - exists wl. split; [apply getitem_inv, Hw | exact Hw0].
  - apply foldM_layer_body_inv in Hf.
    eapply Forall_impl; [| exact Hf].
    intros layer (n & ex & Hi & He & Hn).
    split; [apply nth_error_Some; congruence |].
    split; [apply nth_error_Some; congruence |].
    rewrite (nth_error_nth _ _ _ Hi), (nth_error_nth _ _ _ He).
    destruct (Req_dec n 0) as [-> | Hn0]; [| left; exact Hn0].
    destruct (Req_dec ex 0) as [-> | He0]; [| right; exact He0].
    exfalso. apply Hn. c_ring.
Qed.

Lemma sample_requires_data_witness :
  sample [film] [1] 0 = Ok (560 / 729, 169 / 729) /\
  [film] <> [] /\
  (exists wl, nth_error [1] 0 = Some wl /\ wl <> 0) /\
  Forall (fun layer =>
            (0 < List.length (index layer))%nat /\
            (0 < List.length (extinct layer))%nat /\
            (nth 0 (index layer) 0 <> 0 \/ nth 0 (extinct layer) 0 <> 0))
         [film].
Proof.
  split; [exact sample_film | apply (sample_requires_data _ _ _ _ _ sample_film)].
Defined.

(** ** Fresnel coefficients and interfaces *)

Lemma Cmul_neq_0 (a b : C) : a <> RtoC 0 -> b <> RtoC 0 -> (a * b)%C <> RtoC 0.
Proof.
  intros Ha Hb H. pose proof (C_neq_0_norm a Ha). pose proof (C_neq_0_norm b Hb).
  apply (f_equal re) in H as Hr. apply (f_equal im) in H as Hi. simpl in Hr, Hi.
  assert (E : (re a * re a + im a * im a) * (re b * re b + im b * im b) = 0) by nra.
  apply Rmult_integral in E. tauto.
Qed.

Lemma Cmul_cancel_r (x y d : C) : d <> RtoC 0 -> (x * d)%C = (y * d)%C -> x = y.
Proof.
  intros Hd H. rewrite (Cquot_unique _ _ x Hd H).
  symmetry. apply Cquot_unique; [exact Hd | reflexivity].
Qed.

Lemma py_cdiv_inv (a b q : C) :
  py_cdiv a b = Ok q -> b <> RtoC 0 /\ (q * b)%C = a.
Proof.
  unfold py_cdiv. destruct (Ceq_dec b (RtoC 0)) as [E | E]; [discriminate |].
  intros H. injection H as <-. split; [exact E | apply Cquot_mul, E].
Qed.

Lemma fresnel_ok (n1 n2 k1x k2x : C) :
  (k1x + k2x)%C <> RtoC 0 ->
  (n1 * n1 * k2x + n2 * n2 * k1x)%C <> RtoC 0 ->
  fresnel n1 n2 k1x k2x =
  Ok (Cquot (k1x - k2x) (k1x + k2x), Cquot (2 * k1x) (k1x + k2x),
      Cquot (n1 * n1 * k2x - n2 * n2 * k1x) (n1 * n1 * k2x + n2 * n2 * k1x),
      Cquot (2 * n1 * n1 * k2x) (n1 * n1 * k2x + n2 * n2 * k1x)).
Proof.
  intros Hs Hp. unfold fresnel.
  rewrite !(py_cdiv_ok _ _ Hs). cbn [bind].
  rewrite !(py_cdiv_ok _ _ Hp). reflexivity.
Qed.

(** What a returned tuple of [fresnel] satisfies: each coefficient times
    its divisor is its dividend, and the divisors are not zero. *)
Lemma fresnel_inv (n1 n2 k1x k2x r12_s t12_s r12_p t12_p : C) :
  fresnel n1 n2 k1x k2x = Ok (r12_s, t12_s, r12_p, t12_p) ->
  (k1x + k2x)%C <> RtoC 0 /\
  (n1 * n1 * k2x + n2 * n2 * k1x)%C <> RtoC 0 /\
  (r12_s * (k1x + k2x))%C = (k1x - k2x)%C /\
  (t12_s * (k1x + k2x))%C = (2 * k1x)%C /\
  (r12_p * (n1 * n1 * k2x + n2 * n2 * k1x))%C =
    (n1 * n1 * k2x - n2 * n2 * k1x)%C /\
  (t12_p * (n1 * n1 * k2x + n2 * n2 * k1x))%C = (2 * n1 * n1 * k2x)%C.
Proof.
  unfold fresnel.
  destruct (py_cdiv (k1x - k2x) (k1x + k2x)) as [a |] eqn:Ha; cbn [bind];
    [| discriminate].
  destruct (py_cdiv (2 * k1x) (k1x + k2x)) as [b |] eqn:Hb; cbn [bind];
    [| discriminate].
  destruct (py_cdiv (n1 * n1 * k2x - n2 * n2 * k1x) _) as [c' |] eqn:Hc;
    cbn [bind]; [| discriminate].
  destruct (py_cdiv (2 * n1 * n1 * k2x) _) as [d |] eqn:Hd; cbn [bind];
    [| discriminate].
  intros H. assert (a = r12_s /\ b = t12_s /\ c' = r12_p /\ d = t12_p)
    as (-> & -> & -> & ->) by (repeat split; congruence).
  destruct (py_cdiv_inv _ _ _ Ha) as [Es Hr].
  destruct (py_cdiv_inv _ _ _ Hb) as [_ Ht].
  destruct (py_cdiv_inv _ _ _ Hc) as [Ep Hrp].
  destruct (py_cdiv_inv _ _ _ Hd) as [_ Htp].
  auto 10.
Qed.

(** X16.  Whenever [fresnel] returns, the transmission coefficient is one
    plus the reflection coefficient, for the s-wave and for the p-wave. *)
Theorem fresnel_one_plus_r (n1 n2 k1x k2x r12_s t12_s r12_p t12_p : C) :
  fresnel n1 n2 k1x k2x = Ok (r12_s, t12_s, r12_p, t12_p) ->
  t12_s = (RtoC 1 + r12_s)%C /\ t12_p = (RtoC 1 + r12_p)%C.
Proof.
  intros HF.
  destruct (fresnel_inv _ _ _ _ _ _ _ _ HF) as (Es & Ep & Hr & Ht & Hrp & Htp).
  split.
  - apply (Cmul_cancel_r _ _ _ Es). rewrite Ht.
    transitivity (k1x + k2x + r12_s * (k1x + k2x))%C; [| c_ring].
    rewrite Hr. c_ring.
  - apply (Cmul_cancel_r _ _ _ Ep). rewrite Htp.
    transitivity (n1 * n1 * k2x + n2 * n2 * k1x +
                  r12_p * (n1 * n1 * k2x + n2 * n2 * k1x))%C; [| c_ring].
    rewrite Hrp. c_ring.
Qed.

Lemma C12_neq_0 : (RtoC 1 + RtoC 2)%C <> RtoC 0.
Proof. intros H. apply (f_equal re) in H. simpl in H. lra. Qed.

Lemma C12p_neq_0 :
  (RtoC 1 * RtoC 1 * RtoC 2 + RtoC 2 * RtoC 2 * RtoC 1)%C <> RtoC 0.
Proof. intros H. apply (f_equal re) in H. simpl in H. lra. Qed.

Lemma fresnel_one_plus_r_witness :
  fresnel 1 2 1 2 =
    Ok (Cquot (1 - 2) (1 + 2), Cquot (2 * 1) (1 + 2),
        Cquot (1 * 1 * 2 - 2 * 2 * 1) (1 * 1 * 2 + 2 * 2 * 1),
        Cquot (2 * 1 * 1 * 2) (1 * 1 * 2 + 2 * 2 * 1)) /\
  Cquot (2 * 1) (1 + 2) = (RtoC 1 + Cquot (1 - 2) (1 + 2))%C /\
  Cquot (2 * 1 * 1 * 2) (1 * 1 * 2 + 2 * 2 * 1) =
  (RtoC 1 + Cquot (1 * 1 * 2 - 2 * 2 * 1) (1 * 1 * 2 + 2 * 2 * 1))%C.
Proof.
  pose proof (fresnel_ok 1 2 1 2 C12_neq_0 C12p_neq_0) as H.
  split; [exact H | apply (fresnel_one_plus_r _ _ _ _ _ _ _ _ H)].
Defined.

(** X17.  Reversing an interface: [fresnel] with the two media exchanged
    returns the opposite reflection coefficients, and the two transmission
    coefficients satisfy [t12 * t21 + r12^2 = 1], for the s-wave and for the
    p-wave. *)
Theorem fresnel_reverse (n1 n2 k1x k2x : C) (r12_s t12_s r12_p t12_p : C)
    (r21_s t21_s r21_p t21_p : C) :
  fresnel n1 n2 k1x k2x = Ok (r12_s, t12_s, r12_p, t12_p) ->
  fresnel n2 n1 k2x k1x = Ok (r21_s, t21_s, r21_p, t21_p) ->
  r21_s = (- r12_s)%C /\ r21_p = (- r12_p)%C /\
  (t12_s * t21_s + r12_s * r12_s)%C = RtoC 1 /\
  (t12_p * t21_p + r12_p * r12_p)%C = RtoC 1.
Proof.
  intros HF HF'.
  destruct (fresnel_inv _ _ _ _ _ _ _ _ HF) as (Es & Ep & Hr & Ht & Hrp & Htp).
  destruct (fresnel_inv _ _ _ _ _ _ _ _ HF')
    as (Es' & Ep' & Hr' & Ht' & Hrp' & Htp').
  set (s := (k1x + k2x)%C) in *.
  set (p := (n1 * n1 * k2x + n2 * n2 * k1x)%C) in *.
  replace (k2x + k1x)%C with s in * by (unfold s; c_ring).
  replace (n2 * n2 * k1x + n1 * n1 * k2x)%C with p in * by (unfold p; c_ring).
  repeat split.
  - apply (Cmul_cancel_r _ _ _ Es). rewrite Hr'.
    transitivity (- (r12_s * s))%C; [| c_ring]. rewrite Hr. c_ring.
  - apply (Cmul_cancel_r _ _ _ Ep). rewrite Hrp'.
    transitivity (- (r12_p * p))%C; [| c_ring]. rewrite Hrp. c_ring.
  - apply (Cmul_cancel_r _ _ _ (Cmul_neq_0 _ _ Es Es)).
    transitivity ((t12_s * s) * (t21_s * s) + (r12_s * s) * (r12_s * s))%C;
      [c_ring |].
    rewrite Ht, Ht', Hr. unfold s. c_ring.
  - apply (Cmul_cancel_r _ _ _ (Cmul_neq_0 _ _ Ep Ep)).
    transitivity ((t12_p * p) * (t21_p * p) + (r12_p * p) * (r12_p * p))%C;
      [c_ring |].
    rewrite Htp, Htp', Hrp. unfold p. c_ring.
Qed.

Lemma C21_neq_0 : (RtoC 2 + RtoC 1)%C <> RtoC 0.
Proof. intros H. apply (f_equal re) in H. simpl in H. lra. Qed.

Lemma C21p_neq_0 :
  (RtoC 2 * RtoC 2 * RtoC 1 + RtoC 1 * RtoC 1 * RtoC 2)%C <> RtoC 0.
Proof. intros H. apply (f_equal re) in H. simpl in H. lra. Qed.

Lemma fresnel_reverse_witness :
  fresnel 1 2 1 2 =
    Ok (Cquot (1 - 2) (1 + 2), Cquot (2 * 1) (1 + 2),
        Cquot (1 * 1 * 2 - 2 * 2 * 1) (1 * 1 * 2 + 2 * 2 * 1),
        Cquot (2 * 1 * 1 * 2) (1 * 1 * 2 + 2 * 2 * 1)) /\
  fresnel 2 1 2 1 =
    Ok (Cquot (2 - 1) (2 + 1), Cquot (2 * 2) (2 + 1),
        Cquot (2 * 2 * 1 - 1 * 1 * 2) (2 * 2 * 1 + 1 * 1 * 2),
        Cquot (2 * 2 * 2 * 1) (2 * 2 * 1 + 1 * 1 * 2)) /\
  Cquot (2 - 1) (2 + 1) = (- Cquot (1 - 2) (1 + 2))%C /\
  Cquot (2 * 2 * 1 - 1 * 1 * 2) (2 * 2 * 1 + 1 * 1 * 2) =
    (- Cquot (1 * 1 * 2 - 2 * 2 * 1) (1 * 1 * 2 + 2 * 2 * 1))%C /\
  (Cquot (2 * 1) (1 + 2) * Cquot (2 * 2) (2 + 1) +
   Cquot (1 - 2) (1 + 2) * Cquot (1 - 2) (1 + 2))%C = RtoC 1 /\
  (Cquot (2 * 1 * 1 * 2) (1 * 1 * 2 + 2 * 2 * 1) *
   Cquot (2 * 2 * 2 * 1) (2 * 2 * 1 + 1 * 1 * 2) +
   Cquot (1 * 1 * 2 - 2 * 2 * 1) (1 * 1 * 2 + 2 * 2 * 1) *
   Cquot (1 * 1 * 2 - 2 * 2 * 1) (1 * 1 * 2 + 2 * 2 * 1))%C = RtoC 1.
Proof.
  pose proof (fresnel_ok 1 2 1 2 C12_neq_0 C12p_neq_0) as H.
  pose proof (fresnel_ok 2 1 2 1 C21_neq_0 C21p_neq_0) as H'.
  split; [exact H |]. split; [exact H' |].
  apply (fresnel_reverse _ _ _ _ _ _ _ _ _ _ _ _ H H').
Defined.









(** The matrix of the bare interface between two real indices. *)
Lemma interface_matrix (n0 ns : R) :
  n0 <> 0 ->
  mmul (lossless_Dinv n0) (lossless_D ns) =
  mkM (RtoC ((n0 + ns) / (2 * n0))) (RtoC ((n0 - ns) / (2 * n0)))
      (RtoC ((n0 - ns) / (2 * n0))) (RtoC ((n0 + ns) / (2 * n0))).
Proof.
  intros H. unfold lossless_Dinv, lossless_D, mmul.
  apply M_eq; cbn [m00 m01 m10 m11]; apply C_eq; simpl; field; exact H.
Qed.

(** X20.  A single interface: for real indices [n0] and [ns], the matrix
    composed from the inverse dynamical matrix of [n0] and the dynamical
    matrix of [ns] gives the Fresnel values [r = (n0 - ns) / (n0 + ns)],
    [R = r^2], [t = 2 n0 / (n0 + ns)] and [T = 4 n0 ns / (n0 + ns)^2]. *)
Theorem single_interface (n0 ns : R) (D0inv M : matrix) (R_ : R) (r T t : C) :
  inverse (fst (dynamical_matrix n0 0)) = Ok D0inv ->
  multilayer_matrix [D0inv; fst (dynamical_matrix ns 0)] = Ok M ->
  reflectance M = Ok (R_, r) ->
  transmittance M n0 ns 0 0 = Ok (T, t) ->
  r = RtoC ((n0 - ns) / (n0 + ns)) /\
  R_ = ((n0 - ns) / (n0 + ns)) ^ 2 /\
  t = RtoC (2 * n0 / (n0 + ns)) /\
  T = RtoC (4 * n0 * ns / (n0 + ns) ^ 2).
Proof.
  rewrite !Ds_normal. intros HD HM HR HT.
  assert (Hn0 : n0 <> 0).
  { intros ->. rewrite inverse_singular in HD; [discriminate |].
    rewrite det_Ds. c_ring. }
  change (inverse (lossless_D n0) = Ok D0inv) in HD.
  rewrite (inverse_lossless_D _ Hn0) in HD.
  assert (HD0 : D0inv = lossless_Dinv n0) by congruence. subst D0inv.
  unfold multilayer_matrix, multi_dot in HM. cbn [fold_left] in HM.
  change (Ok (mmul (lossless_Dinv n0) (lossless_D ns)) = Ok M) in HM.
  rewrite (interface_matrix _ _ Hn0) in HM.
  assert (HM0 : M = mkM (RtoC ((n0 + ns) / (2 * n0))) (RtoC ((n0 - ns) / (2 * n0)))
                        (RtoC ((n0 - ns) / (2 * n0))) (RtoC ((n0 + ns) / (2 * n0))))
    by congruence.
  subst M. clear HM.
  assert (Hs : n0 + ns <> 0).
  { intros E. unfold reflectance in HR. cbn [m00 m10] in HR.
    replace ((n0 + ns) / (2 * n0)) with 0 in HR by (rewrite E; field; exact Hn0).
    rewrite py_cdiv_zero in HR. discriminate. }
  assert (H00 : m00 (mkM (RtoC ((n0 + ns) / (2 * n0))) (RtoC ((n0 - ns) / (2 * n0)))
                         (RtoC ((n0 - ns) / (2 * n0))) (RtoC ((n0 + ns) / (2 * n0))))
                <> RtoC 0).
  { cbn [m00]. apply RtoC_neq_0. intros E.
    apply Hs. apply (Rmult_eq_reg_r (/ (2 * n0))).
    - rewrite Rmult_0_l. exact E.
    - apply Rinv_neq_0_compat. lra. }
  rewrite (reflectance_ok _ H00) in HR.
  rewrite (transmittance_ok _ _ _ _ _ H00) in HT.
  cbn [m00 m10] in HR, HT.
  assert (Hr : r = Cquot (RtoC ((n0 - ns) / (2 * n0))) (RtoC ((n0 + ns) / (2 * n0))))
    by congruence.
  assert (HRr : R_ = re (r * Cconj r)) by congruence.
  assert (Ht : t = Cquot 1 (RtoC ((n0 + ns) / (2 * n0)))) by congruence.
  assert (HTt : T = (det (mkM (RtoC ((n0 + ns) / (2 * n0))) (RtoC ((n0 - ns) / (2 * n0)))
                              (RtoC ((n0 - ns) / (2 * n0))) (RtoC ((n0 + ns) / (2 * n0)))) *
                     RtoC (re (t * Cconj t)))%C) by congruence.
  clear HR HT.
  assert (Er : r = RtoC ((n0 - ns) / (n0 + ns))).
  { rewrite Hr. apply C_eq; simpl; field; auto. }
  assert (Et : t = RtoC (2 * n0 / (n0 + ns))).
  { rewrite Ht. apply C_eq; simpl; field; auto. }
  split; [exact Er |]. split; [| split; [exact Et |]].
  - rewrite HRr, Er. simpl. ring.
  - rewrite HTt, Et. unfold det. apply C_eq; simpl; field; auto.
Qed.

Lemma single_interface_witness :
  exists M R_ r T t,
    inverse (fst (dynamical_matrix 1 0)) = Ok (lossless_Dinv 1) /\
    multilayer_matrix [lossless_Dinv 1; fst (dynamical_matrix 2 0)] = Ok M /\
    reflectance M = Ok (R_, r) /\
    transmittance M 1 2 0 0 = Ok (T, t) /\
    r = RtoC ((1 - 2) / (1 + 2)) /\
    R_ = ((1 - 2) / (1 + 2)) ^ 2 /\
    t = RtoC (2 * 1 / (1 + 2)) /\
    T = RtoC (4 * 1 * 2 / (1 + 2) ^ 2).
Proof.
  assert (HD : inverse (fst (dynamical_matrix 1 0)) = Ok (lossless_Dinv 1)).
  { rewrite Ds_normal. apply inverse_Ds, RtoC_neq_0. lra. }
  assert (HM : multilayer_matrix [lossless_Dinv 1; fst (dynamical_matrix 2 0)] =
               Ok (mmul (lossless_Dinv 1) (fst (dynamical_matrix 2 0))))
    by reflexivity.
  assert (H0 : m00 (mmul (lossless_Dinv 1) (fst (dynamical_matrix 2 0)))
               <> RtoC 0).
  { rewrite Ds_normal. change (mkM 1 1 (RtoC 2) (- RtoC 2)) with (lossless_D 2).
    rewrite interface_matrix by lra. cbn [m00]. apply RtoC_neq_0. lra. }
  pose proof (reflectance_ok _ H0) as HR.
  pose proof (transmittance_ok _ 1 2 0 0 H0) as HT.
  do 5 eexists.
  split; [exact HD |]. split; [exact HM |]. split; [exact HR |].
  split; [exact HT |].
  apply (single_interface 1 2 _ _ _ _ _ _ HD HM HR HT).
Defined.

(** ** Thin layers in the sweep *)

(** X21.  A layer of thickness zero is invisible: for a one-layer stack
    whose layer has thickness zero, whatever its index and extinction (not
    both zero), the sample is that of the bare interface between the ambient
    and the substrate, [T = 4 n0 ns / (n0 + ns)^2] and
    [R = ((n0 - ns) / (n0 + ns))^2] with [n0 = air.index],
    [ns = other.index]. *)
Theorem zero_thickness_single_layer (layer : Layer) (wavelen : list R)
    (i : nat) (wl : R) :
  thickness layer = 0 ->
  nth_error wavelen i = Some wl -> wl <> 0 ->
  layer_ok i layer ->
  sample [layer] wavelen i =
  Ok (4 * air_index * other_index / (air_index + other_index) ^ 2,
      ((air_index - other_index) / (air_index + other_index)) ^ 2).
Proof.
  intros Hd Hw Hw0 (n & ex & Hi & He & Hn).
  assert (HM : transfer_matrix [layer] wavelen i =
               Ok (mmul (lossless_Dinv air_index) (lossless_D other_index))).
  { unfold transfer_matrix, assemble.
    rewrite (getitem_ok _ _ _ Hw). cbn [bind].
    rewrite Light_init_ok
      by (apply Rmult_integral_contrapositive_currified;
          [exact Hw0 | apply um_neq_0]).
    cbn [bind]. rewrite inverse_D0. cbn [bind foldM].
    rewrite (layer_body_ok _ i _ layer n ex Hi He Hn).
    cbn [bind M_list D_P_Dinv]. rewrite Ds_normal.
    rewrite (propagation_matrix_zero_thickness _ _ Hd).
    unfold multilayer_matrix, multi_dot. f_equal.
    change (fold_left mmul
              ([mkM 1 1 (RtoC n + Cj * RtoC ex)%C (- (RtoC n + Cj * RtoC ex))%C;
                eye;
                mkM (RtoC (1 / 2)) (Cquot (RtoC (1 / 2)) (RtoC n + Cj * RtoC ex)%C)
                    (RtoC (1 / 2)) (Cquot (RtoC (- 1 / 2)) (RtoC n + Cj * RtoC ex)%C)] ++
               [lossless_D other_index]) (lossless_Dinv air_index) =
            mmul (lossless_Dinv air_index) (lossless_D other_index)).
    rewrite fold_left_app, (fold_triple_eye _ _ _ (inverse_Ds _ Hn)).
    reflexivity. }
  assert (Ha : air_index <> 0) by (rewrite air_index_eq; lra).
  rewrite (interface_matrix _ _ Ha) in HM.
  rewrite (sample_of_transfer_matrix _ _ _ _ HM).
  - cbn [m00 m10]. unfold det. cbn [m00 m01 m10 m11].
    rewrite air_index_eq, other_index_eq. f_equal. f_equal.
    + simpl. field.
    + simpl. field.
  - cbn [m00]. rewrite air_index_eq, other_index_eq.
    apply RtoC_neq_0. lra.
Qed.

Lemma spacer_ok : layer_ok 0 spacer.
Proof.
  exists (3 / 2), 0. repeat split. rewrite lossless_index. apply RtoC_neq_0. lra.
Qed.

Lemma zero_thickness_single_layer_witness :
  thickness spacer = 0 /\
  nth_error [1] 0 = Some 1 /\ 1 <> 0 /\
  layer_ok 0 spacer /\
  sample [spacer] [1] 0 =
  Ok (4 * air_index * other_index / (air_index + other_index) ^ 2,
      ((air_index - other_index) / (air_index + other_index)) ^ 2).
Proof.
  assert (H3 : 1 <> 0) by lra.
  split; [reflexivity |]. split; [reflexivity |]. split; [exact H3 |].
  split; [exact spacer_ok |].
  apply (zero_thickness_single_layer spacer [1] 0%nat 1 eq_refl eq_refl H3
                                     spacer_ok).
Defined.

(** ** [make_wavelengths] *)

Lemma wavelen_loop_grid (count : nat) (wavelen data_width : R)
    (wavelen_list : list R) :
  wavelen_loop count wavelen data_width wavelen_list =
  wavelen_list ++
  map (fun k => wavelen + INR k * data_width) (seq 0 count).
Proof.
  revert wavelen wavelen_list.
  induction count as [| count IH]; intros wavelen wavelen_list.
  - cbn. symmetry. apply app_nil_r.
  - cbn [wavelen_loop]. rewrite IH, <- app_assoc. f_equal.
    cbn [seq map app]. f_equal.
    + cbn. ring.
    + rewrite <- seq_shift, map_map. apply map_ext. intros k.
      rewrite S_INR. ring.
Qed.

Lemma insort_le_all (x : R) (l : list R) :
  Forall (fun y => x <= y) l -> insort x l = x :: l.
Proof.
  intros H. destruct l as [| y l]; [reflexivity |].
  cbn [insort]. inversion H; subst.
  destruct (Rle_dec x y); [reflexivity | contradiction].
Qed.

Lemma insort_gt_all (x : R) (l : list R) :
  Forall (fun y => y < x) l -> insort x l = l ++ [x].
Proof.
  induction 1 as [| y l Hy _ IH]; [reflexivity |].
  cbn [insort app]. destruct (Rle_dec x y); [lra | rewrite IH; reflexivity].
Qed.

(** Sorting leaves an ascending list as it is and reverses a descending
    one. *)
Lemma sort_ascending (l : list R) : StronglySorted Rle l -> sort l = l.
Proof.
  induction 1 as [| x l Hs IH Hx]; [reflexivity |].
  unfold sort in *. cbn [fold_right]. rewrite IH. apply insort_le_all, Hx.
Qed.

Lemma sort_descending (l : list R) :
  StronglySorted (fun a b => b < a) l -> sort l = rev l.
Proof.
  induction 1 as [| x l Hs IH Hx]; [reflexivity |].
  unfold sort in *. cbn [fold_right rev]. rewrite IH.
  apply insort_gt_all. apply Forall_rev. exact Hx.
Qed.

Lemma grid_ascending (w d : R) (n start : nat) :
  0 <= d ->
  StronglySorted Rle (map (fun k => w + INR k * d) (seq start n)).
Proof.
  intros Hd. revert start. induction n as [| n IH]; intros start; cbn [seq map].
  - constructor.
  - constructor; [apply IH |].
    apply Forall_forall. intros y Hy. apply in_map_iff in Hy.
    destruct Hy as (k & <- & Hk). apply in_seq in Hk.
    assert (INR start <= INR k) by (apply le_INR; lia). nra.
Qed.

Lemma grid_descending (w d : R) (n start : nat) :
  d < 0 ->
  StronglySorted (fun a b => b < a) (map (fun k => w + INR k * d) (seq start n)).
Proof.
  intros Hd. revert start. induction n as [| n IH]; intros start; cbn [seq map].
  - constructor.
  - constructor; [apply IH |].
    apply Forall_forall. intros y Hy. apply in_map_iff in Hy.
    destruct Hy as (k & <- & Hk). apply in_seq in Hk.
    assert (INR start < INR k) by (apply lt_INR; lia). nra.
Qed.

Lemma StronglySorted_rev_lt (l : list R) :
  StronglySorted (fun a b => b < a) l -> StronglySorted Rle (rev l).
Proof.
  induction 1 as [| x l Hs IH Hx]; cbn [rev]; [constructor |].
  clear Hs. revert IH. generalize (Forall_rev Hx). generalize (rev l).
  intros l' Hl'. induction 1 as [| y l'' Hs' IH' Hy]; cbn [app].
  - repeat constructor.
  - inversion Hl'; subst. constructor; [apply IH'; assumption |].
    apply Forall_app. split; [exact Hy |]. constructor; [lra | constructor].
Qed.

Lemma make_wavelengths_unfold (num_points : Z) (min_l max_l : R) :
  (num_points <> 0)%Z ->
  make_wavelengths num_points min_l max_l =
  Ok (sort (map (fun k => min_l + INR k * ((max_l - min_l) / IZR num_points))
                (seq 0 (Z.to_nat num_points)))).
Proof.
  intros Hn. unfold make_wavelengths.
  rewrite py_div_ok by (apply not_0_IZR, Hn). cbn [bind].
  rewrite wavelen_loop_grid. reflexivity.
Qed.

(** The list [make_wavelengths] returns, for a positive number of points:
    the grid itself when [min_l <= max_l], the grid reversed otherwise. *)
Lemma make_wavelengths_sorted (num_points : Z) (min_l max_l : R) :
  (0 < num_points)%Z ->
  let grid := map (fun k => min_l + INR k * ((max_l - min_l) / IZR num_points))
                  (seq 0 (Z.to_nat num_points)) in
  (make_wavelengths num_points min_l max_l = Ok grid /\
   StronglySorted Rle grid) \/
  (make_wavelengths num_points min_l max_l = Ok (rev grid) /\
   StronglySorted Rle (rev grid)).
Proof.
  intros Hn grid. rewrite make_wavelengths_unfold by lia. fold grid.
  assert (Hi : 0 < / IZR num_points) by (apply Rinv_0_lt_compat, IZR_lt, Hn).
  destruct (Rle_or_lt min_l max_l) as [Hle | Hlt].
  - left. assert (Hs : StronglySorted Rle grid).
    { apply grid_ascending. unfold Rdiv. nra. }
    rewrite (sort_ascending _ Hs). auto.
  - right.
    assert (Hs : StronglySorted (fun a b => b < a) grid).
    { apply grid_descending. unfold Rdiv. nra. }
    rewrite (sort_descending _ Hs). split; [reflexivity |].
    apply StronglySorted_rev_lt, Hs.
Qed.

Lemma make_wavelengths_in (num_points : Z) (min_l max_l : R)
    (wavelen_list : list R) :
  (0 < num_points)%Z ->
  make_wavelengths num_points min_l max_l = Ok wavelen_list ->
  forall x, In x wavelen_list <->
            exists k, (k < Z.to_nat num_points)%nat /\
                      x = min_l + INR k * ((max_l - min_l) / IZR num_points).
Proof.
  intros Hn H x.
  set (grid := map (fun k => min_l + INR k * ((max_l - min_l) / IZR num_points))
                   (seq 0 (Z.to_nat num_points))).
  assert (Hin : In x grid <->
            exists k, (k < Z.to_nat num_points)%nat /\
                      x = min_l + INR k * ((max_l - min_l) / IZR num_points)).
  { unfold grid. rewrite in_map_iff. split.
    - intros (k & <- & Hk). apply in_seq in Hk. exists k. split; [lia | reflexivity].
    - intros (k & Hk & ->). exists k. split; [reflexivity | apply in_seq; lia]. }
  destruct (make_wavelengths_sorted num_points min_l max_l Hn) as [[E _] | [E _]];
    rewrite E in H; injection H as <-; [exact Hin |].
  rewrite <- in_rev. exact Hin.
Qed.

(** X22.  For a positive [num_points], [make_wavelengths] returns
    [num_points] values in ascending order, whichever of [min_l] and [max_l]
    is the larger, and they are exactly the values
    [min_l + k * (max_l - min_l) / num_points] for [k] from 0 to
    [num_points - 1]. *)
Theorem make_wavelengths_grid (num_points : Z) (min_l max_l : R) :
  (0 < num_points)%Z ->
  exists wavelen_list,
    make_wavelengths num_points min_l max_l = Ok wavelen_list /\
    List.length wavelen_list = Z.to_nat num_points /\
    StronglySorted Rle wavelen_list /\
    forall x, In x wavelen_list <->
              exists k, (k < Z.to_nat num_points)%nat /\
                        x = min_l + INR k * ((max_l - min_l) / IZR num_points).
Proof.
  intros Hn.
  destruct (make_wavelengths_sorted num_points min_l max_l Hn) as [[E Hs] | [E Hs]];
    eexists; (split; [exact E |]); (split; [| split; [exact Hs |]]).
  - rewrite length_map, length_seq. reflexivity.
  - apply (make_wavelengths_in _ _ _ _ Hn E).
  - rewrite length_rev, length_map, length_seq. reflexivity.
  - apply (make_wavelengths_in _ _ _ _ Hn E).
Qed.

Lemma make_wavelengths_grid_witness :
  (0 < 4)%Z /\
  exists wavelen_list,
    make_wavelengths 4 1 2 = Ok wavelen_list /\
    List.length wavelen_list = Z.to_nat 4 /\
    StronglySorted Rle wavelen_list /\
    forall x, In x wavelen_list <->
              exists k, (k < Z.to_nat 4)%nat /\
                        x = 1 + INR k * ((2 - 1) / IZR 4).
Proof.
  assert (H : (0 < 4)%Z) by lia.
  split; [exact H | apply (make_wavelengths_grid 4 1 2 H)].
Defined.



(** X24.  The degenerate calls: [num_points = 0] raises [ZeroDivisionError],
    a negative [num_points] returns the empty list. *)
Theorem make_wavelengths_degenerate (num_points : Z) (min_l max_l : R) :
  (num_points = 0%Z ->
   make_wavelengths num_points min_l max_l = Raise ZeroDivisionError) /\
  ((num_points < 0)%Z -> make_wavelengths num_points min_l max_l = Ok []).
Proof.
  split.
  - intros ->. unfold make_wavelengths. rewrite py_div_zero. reflexivity.
  - intros Hn. rewrite make_wavelengths_unfold by lia.
    replace (Z.to_nat num_points) with 0%nat by lia. reflexivity.
Qed.

Lemma make_wavelengths_degenerate_witness :
  make_wavelengths 0 1 2 = Raise ZeroDivisionError /\
  make_wavelengths (-3) 1 2 = Ok [].
Proof.
  split.
  - apply (proj1 (make_wavelengths_degenerate 0 1 2)). reflexivity.
  - apply (proj2 (make_wavelengths_degenerate (-3) 1 2)). lia.
Defined.

(** ** The unit conversions of [plots.py] *)

Lemma comprehension_ok {A B : Type} (f : A -> result B) (g : A -> B)
    (data : list A) :
  (forall d, In d data -> f d = Ok (g d)) ->
  plots.comprehension f data = Ok (map g data).
Proof.
  induction data as [| d data IH]; intros H; cbn [plots.comprehension map].
  - reflexivity.
  - rewrite (H d (or_introl eq_refl)). cbn [bind].
    rewrite IH by (intros; apply H; right; assumption). reflexivity.
Qed.

Lemma comprehension_raise {A B : Type} (f : A -> result B) (data : list A)
    (e : exception) :
  (exists d, In d data /\ f d = Raise e) ->
  (forall d, In d data -> (exists y, f d = Ok y) \/ f d = Raise e) ->
  plots.comprehension f data = Raise e.
Proof.
  induction data as [| d data IH]; intros (d0 & Hin & Hd0) Hall.
  - destruct Hin.
  - cbn [plots.comprehension].
    destruct (Hall d (or_introl eq_refl)) as [[y Hy] | Hr].
    + rewrite Hy. cbn [bind].
      rewrite IH; [reflexivity | | intros; apply Hall; right; assumption].
      destruct Hin as [-> | Hin]; [congruence |]. exists d0. auto.
    + rewrite Hr. reflexivity.
Qed.

Lemma wavenum_to_joules_ok (wavenum : R) :
  plots.wavenum_to_joules wavenum = Ok (sc.h * sc.c * (100 * wavenum)).
Proof.
  unfold plots.wavenum_to_joules.
  rewrite py_div_ok by lra. cbn [bind].
  rewrite py_div_ok by lra. cbn [bind]. do 2 f_equal. field.
Qed.

Lemma joules_to_ev_ok (joules : R) :
  plots.joules_to_ev joules = Ok (joules / sc.eV).
Proof.
  unfold plots.joules_to_ev. rewrite (py_div_ok _ _ eV_neq_0). reflexivity.
Qed.

Lemma wavenum_to_wavelen_ok (wavenum : R) :
  wavenum <> 0 -> plots.wavenum_to_wavelen wavenum = Ok (10000 / wavenum).
Proof.
  intros H. unfold plots.wavenum_to_wavelen. rewrite (py_div_ok _ _ H).
  reflexivity.
Qed.

Lemma wavenum_to_wavelen_zero :
  plots.wavenum_to_wavelen 0 = Raise ZeroDivisionError.
Proof. unfold plots.wavenum_to_wavelen. rewrite py_div_zero. reflexivity. Qed.

(** The two energy comprehensions of [set_units] never raise; what is left
    is the wavelength comprehension and the choice of the unit. *)
Lemma set_units_head (unit_data : list R) (u : string) :
  plots.set_units unit_data u =
  (wavenumber_to_wavelength <-
     plots.comprehension plots.wavenum_to_wavelen unit_data ;;
   if String.eqb u "ev"
   then Ok (map (fun d => sc.h * sc.c * (100 * d) / sc.eV) unit_data)
   else if String.eqb u "wn" then Ok unit_data
   else if String.eqb u "wl" then Ok wavenumber_to_wavelength
   else Raise UnboundLocalError).
Proof.
  unfold plots.set_units. rewrite py_div_ok by lra. cbn [bind].
  rewrite (comprehension_ok _ (fun d => sc.h * sc.c * (100 * d)))
    by (intros; apply wavenum_to_joules_ok).
  cbn [bind].
  rewrite (comprehension_ok _ (fun j => j / sc.eV))
    by (intros; apply joules_to_ev_ok).
  cbn [bind]. rewrite map_map. reflexivity.
Qed.

Lemma wavelen_comprehension_zero (unit_data : list R) :
  In 0 unit_data ->
  plots.comprehension plots.wavenum_to_wavelen unit_data =
  Raise ZeroDivisionError.
Proof.
  intros H0. apply comprehension_raise.
  - exists 0. split; [exact H0 | apply wavenum_to_wavelen_zero].
  - intros d _. destruct (Req_dec d 0) as [-> | Hd].
    + right. apply wavenum_to_wavelen_zero.
    + left. eexists. apply (wavenum_to_wavelen_ok _ Hd).
Qed.

Lemma wavelen_comprehension_ok (unit_data : list R) :
  ~ In 0 unit_data ->
  plots.comprehension plots.wavenum_to_wavelen unit_data =
  Ok (map (fun d => 10000 / d) unit_data).
Proof.
  intros H0. apply comprehension_ok.
  intros d Hd. apply wavenum_to_wavelen_ok. intros ->. contradiction.
Qed.

(** X25.  A zero in the data makes [set_units] raise [ZeroDivisionError]
    whatever the unit is, also for ['wn'] and ['ev'], which need no
    wavelength: the wavelength conversion is computed before the unit is
    looked at. *)
Theorem set_units_zero (unit_data : list R) (u : string) :
  In 0 unit_data -> plots.set_units unit_data u = Raise ZeroDivisionError.
Proof.
  intros H0. rewrite set_units_head, (wavelen_comprehension_zero _ H0).
  reflexivity.
Qed.

Lemma set_units_zero_witness :
  In 0 [2000; 0] /\ plots.set_units [2000; 0] "wn" = Raise ZeroDivisionError.
Proof.
  assert (H : In 0 [2000; 0]) by (right; left; reflexivity).
  split; [exact H | apply (set_units_zero _ _ H)].
Defined.

(** X26.  On data without a zero, [set_units] returns the data unchanged
    for ['wn'], [10000 / d] for every [d] for ['wl'] and
    [h * c * 100 * d / e] for every [d] for ['ev']; for any other unit
    string, upper case spellings included, it raises [UnboundLocalError]. *)
Theorem set_units_values (unit_data : list R) (u : string) :
  ~ In 0 unit_data ->
  (u = "wn"%string -> plots.set_units unit_data u = Ok unit_data) /\
  (u = "wl"%string ->
   plots.set_units unit_data u = Ok (map (fun d => 10000 / d) unit_data)) /\
  (u = "ev"%string ->
   plots.set_units unit_data u =
   Ok (map (fun d => sc.h * sc.c * (100 * d) / sc.eV) unit_data)) /\
  (u <> "wn"%string -> u <> "wl"%string -> u <> "ev"%string ->
   plots.set_units unit_data u = Raise UnboundLocalError).
Proof.
  intros H0. rewrite set_units_head, (wavelen_comprehension_ok _ H0).
  cbn [bind]. repeat split.
  - intros ->. reflexivity.
  - intros ->. reflexivity.
  - intros ->. reflexivity.
  - intros Hwn Hwl Hev.
    apply String.eqb_neq in Hwn, Hwl, Hev. rewrite Hev, Hwn, Hwl. reflexivity.
Qed.

Lemma no_zero_2000 : ~ In 0 [2000].
Proof. intros [H | []]. lra. Qed.

Lemma set_units_values_witness :
  ~ In 0 [2000] /\
  plots.set_units [2000] "wl" = Ok (map (fun d => 10000 / d) [2000]) /\
  plots.set_units [2000] "EV" = Raise UnboundLocalError.
Proof.
  split; [exact no_zero_2000 |]. split.
  - apply (proj1 (proj2 (set_units_values [2000] "wl" no_zero_2000))).
    reflexivity.
  - apply (proj2 (proj2 (proj2 (set_units_values [2000] "EV" no_zero_2000))));
      discriminate.
Defined.

(** X27.  The wavelength conversion is its own inverse: converting with
    ['wl'] what a conversion with ['wl'] returned gives the data back. *)
Theorem set_units_wl_involutive (unit_data new_units : list R) :
  plots.set_units unit_data "wl" = Ok new_units ->
  plots.set_units new_units "wl" = Ok unit_data.
Proof.
  intros H.
  assert (H0 : ~ In 0 unit_data).
  { intros Hin. rewrite set_units_head, (wavelen_comprehension_zero _ Hin) in H.
    discriminate. }
  rewrite set_units_head, (wavelen_comprehension_ok _ H0) in H.
  cbn in H. injection H as <-.
  rewrite set_units_head, wavelen_comprehension_ok.
  - cbn. rewrite map_map. f_equal. rewrite <- (map_id unit_data) at 2.
    apply map_ext_in. intros d Hd. field. intros ->. contradiction.
  - intros Hin. apply in_map_iff in Hin. destruct Hin as (d & Hd & Hin).
    assert (d <> 0) by (intros ->; contradiction).
    assert (10000 / d <> 0).
    { unfold Rdiv. apply Rmult_integral_contrapositive_currified;
        [lra | apply Rinv_neq_0_compat; assumption]. }
    contradiction.
Qed.

Lemma set_units_wl_involutive_witness :
  plots.set_units [2000] "wl" = Ok (map (fun d => 10000 / d) [2000]) /\
  plots.set_units (map (fun d => 10000 / d) [2000]) "wl" = Ok [2000].
Proof.
  assert (H : plots.set_units [2000] "wl" = Ok (map (fun d => 10000 / d) [2000])).
  { rewrite set_units_head, (wavelen_comprehension_ok _ no_zero_2000).
    reflexivity. }
  split; [exact H | apply (set_units_wl_involutive _ _ H)].
Defined.

(** X28.  The two files agree on the photon energy: for a wavenumber that
    [wavenum_to_wavelen] converts to a wavelength in micrometres, the energy
    in joules and in eV of the [Light] built for that wavelength (in metres)
    is what [wavenum_to_joules] and [joules_to_ev] return. *)
Theorem photon_energy_consistent (wavenum wavelength : R) (light : Light) :
  plots.wavenum_to_wavelen wavenum = Ok wavelength ->
  Light_init (wavelength * um) = Ok light ->
  plots.wavenum_to_joules wavenum = Ok (energy_J light) /\
  plots.joules_to_ev (energy_J light) = Ok (energy_ev light).
Proof.
  intros Hw HL.
  destruct (Req_dec wavenum 0) as [-> | Hn].
  { rewrite wavenum_to_wavelen_zero in Hw. discriminate. }
  rewrite (wavenum_to_wavelen_ok _ Hn) in Hw. injection Hw as <-.
  assert (Hl : 10000 / wavenum * um <> 0).
  { unfold Rdiv, um. repeat apply Rmult_integral_contrapositive_currified;
      try lra; apply Rinv_neq_0_compat; lra. }
  rewrite (Light_init_ok _ Hl) in HL. injection HL as <-.
  cbn [energy_J energy_ev]. split.
  - rewrite wavenum_to_joules_ok. f_equal. unfold h, c, um. field.
    exact Hn.
  - apply joules_to_ev_ok.
Qed.

Lemma photon_energy_consistent_witness :
  exists light,
    plots.wavenum_to_wavelen 2000 = Ok (10000 / 2000) /\
    Light_init (10000 / 2000 * um) = Ok light /\
    plots.wavenum_to_joules 2000 = Ok (energy_J light) /\
    plots.joules_to_ev (energy_J light) = Ok (energy_ev light).
Proof.
  assert (Hw : plots.wavenum_to_wavelen 2000 = Ok (10000 / 2000))
    by (apply wavenum_to_wavelen_ok; lra).
  assert (Hl : 10000 / 2000 * um <> 0) by (unfold um; lra).
  pose proof (Light_init_ok _ Hl) as HL.
  eexists. split; [exact Hw |]. split; [exact HL |].
  apply (photon_energy_consistent _ _ _ Hw HL).
Defined.

(** ** The CSV readers *)

Section csv_properties.

Variable float : string -> result R.

Lemma wave_data_row_lengths (w y K w' y' K' : list R) (row : list string) :
  (forall s, float s <> Raise IndexError) ->
  wave_data_row float (w, y, K) row = Ok (w', y', K') ->
  List.length w' = S (List.length w) /\
  List.length y' = S (List.length y) /\
  List.length K' = (List.length K + if 3 <=? List.length row then 1 else 0)%nat.
Proof.
  intros Hf. unfold wave_data_row.
  destruct (getitem row 0) as [c0 | e]; cbn [bind]; [| discriminate].
  destruct (float c0) as [x0 | e]; cbn [bind]; [| discriminate].
  destruct (getitem row 1) as [c1 | e]; cbn [bind]; [| discriminate].
  destruct (float c1) as [x1 | e]; cbn [bind]; [| discriminate].
  unfold getitem at 1.
  destruct (nth_error row 2) as [c2 |] eqn:H2; cbn [bind].
  - assert (Hlen : (3 <= List.length row)%nat).
    { apply nth_error_Some. congruence. }
    apply Nat.leb_le in Hlen. rewrite Hlen.
    destruct (float c2) as [x2 | e] eqn:Hx.
    + intros H. injection H as <- <- <-. rewrite !length_app. cbn. lia.
    + destruct e; try discriminate. exfalso. apply (Hf c2 Hx).
  - assert (Hlen : (List.length row < 3)%nat).
    { apply nth_error_None in H2. lia. }
    apply Nat.leb_gt in Hlen. rewrite Hlen.
    intros H. injection H as <- <- <-. rewrite !length_app. cbn. lia.
Qed.

Lemma wave_data_loop_lengths (rows : list (list string))
    (w y K w' y' K' : list R) :
  (forall s, float s <> Raise IndexError) ->
  foldM (wave_data_row float) rows (w, y, K) = Ok (w', y', K') ->
  List.length w' = (List.length w + List.length rows)%nat /\
  List.length y' = (List.length y + List.length rows)%nat /\
  List.length K' =
    (List.length K +
     List.length (filter (fun row => 3 <=? List.length row) rows))%nat.
Proof.
  intros Hf. revert w y K.
  induction rows as [| row rows IH]; intros w y K; cbn [foldM].
  - intros H. injection H as <- <- <-. cbn. lia.
  - destruct (wave_data_row float (w, y, K) row) as [[[w1 y1] K1] | e] eqn:Hr;
      cbn [bind]; [| discriminate].
    intros H. destruct (IH _ _ _ H) as (Hw & Hy & HK).
    destruct (wave_data_row_lengths _ _ _ _ _ _ _ Hf Hr) as (Hw1 & Hy1 & HK1).
    cbn [List.length filter].
    destruct (3 <=? List.length row); cbn [List.length]; lia.
Qed.

(** X29.  When [get_wave_data] returns, [wavelength] and [y] have one entry
    per row after the header, but [K] has an entry only for the rows with a
    third column: it can be shorter than [wavelength], and then its entries
    no longer line up with the wavelengths.  ([float] itself never raises
    [IndexError].) *)
Theorem get_wave_data_lengths (rows : list (list string))
    (wavelength y K : list R) :
  (forall s, float s <> Raise IndexError) ->
  get_wave_data float rows = Ok (wavelength, y, K) ->
  List.length wavelength = List.length (tl rows) /\
  List.length y = List.length (tl rows) /\
  List.length K =
    List.length (filter (fun row => 3 <=? List.length row) (tl rows)) /\
  (List.length K <= List.length wavelength)%nat.
Proof.
  intros Hf H. unfold get_wave_data in H.
  destruct (wave_data_loop_lengths _ _ _ _ _ _ _ Hf H) as (Hw & Hy & HK).
  cbn [List.length] in *. repeat split; try lia.
  rewrite HK, Hw. cbn. apply filter_length_le.
Qed.

Lemma data_from_csv_loop_spec (self : Layer) (rows : list (list string)) :
  let self' := fst (data_from_csv_loop float self rows) in
  material self' = material self /\
  thickness self' = thickness self /\
  exists ws ns Ks : list R,
    wavelength self' = wavelength self ++ ws /\
    index self' = index self ++ ns /\
    extinct self' = extinct self ++ Ks /\
    List.length ns = List.length ws /\
    List.length Ks = List.length ws /\
    (List.length ws <= List.length rows)%nat /\
    (snd (data_from_csv_loop float self rows) = Ok tt ->
     List.length ws = List.length rows).
Proof.
  revert self. induction rows as [| row rows IH]; intros self;
    cbn [data_from_csv_loop].
  - cbn [fst snd]. repeat split. exists [], [], [].
    rewrite !app_nil_r. cbn. auto 10.
  - destruct (c0 <- getitem row 0 ;; _) as [[[wl n] K] | e].
    + specialize (IH (mkLayer (material self) (thickness self)
                              (wavelength self ++ [wl]) (index self ++ [n])
                              (extinct self ++ [K]))).
      cbn zeta in IH. cbn [material thickness wavelength index extinct] in IH.
      destruct IH as (Hm & Ht & ws & ns & Ks & Hw & Hi & He & Ln & LK & Hk & Hok).
      split; [exact Hm |]. split; [exact Ht |].
      exists (wl :: ws), (n :: ns), (K :: Ks).
      rewrite Hw, Hi, He, <- !app_assoc. cbn [app List.length].
      repeat split; try lia. intros H. rewrite (Hok H). reflexivity.
    + cbn [fst snd]. repeat split. exists [], [], [].
      rewrite !app_nil_r. cbn [List.length].
      repeat split; try lia. discriminate.
Qed.

(** X30.  [Layer.get_data_from_csv] only appends, and always to the three
    lists at once: whether it completes or raises at some row, the layer
    keeps its material, its thickness and the data it had, the three lists
    grow by the same number of entries (the rows after the header, when it
    completes), so lists of equal length stay of equal length and a second
    load adds the data a second time. *)
Theorem get_data_from_csv_appends (self : Layer) (rows : list (list string)) :
  let self' := fst (get_data_from_csv float self rows) in
  material self' = material self /\
  thickness self' = thickness self /\
  exists ws ns Ks : list R,
    wavelength self' = wavelength self ++ ws /\
    index self' = index self ++ ns /\
    extinct self' = extinct self ++ Ks /\
    List.length ns = List.length ws /\
    List.length Ks = List.length ws /\
    (List.length ws <= List.length (tl rows))%nat /\
    (snd (get_data_from_csv float self rows) = Ok tt ->
     List.length ws = List.length (tl rows)).
Proof. apply data_from_csv_loop_spec. Qed.

End csv_properties.

Lemma get_wave_data_lengths_witness :
  (forall s : string, (fun _ : string => Ok 1) s <> Raise IndexError) /\
  get_wave_data (fun _ => Ok 1) ragged_rows = Ok ([1; 1], [1; 1], [1]) /\
  List.length [1; 1] =
    List.length (tl ragged_rows) /\
  List.length [1; 1] =
    List.length (tl ragged_rows) /\
  List.length [1] =
    List.length (filter (fun row : list string => 3 <=? List.length row)
                        (tl ragged_rows)) /\
  (List.length [1] <= List.length [1; 1])%nat.
Proof.
  assert (Hf : forall s : string, (fun _ : string => Ok 1) s <> Raise IndexError)
    by (intros s; discriminate).
  split; [exact Hf |]. split; [reflexivity |].
  apply (get_wave_data_lengths (fun _ => Ok 1) ragged_rows
                               [1; 1] [1; 1] [1] Hf eq_refl).
Defined.
